(** * fnet.cli.predict: prediction driver of pytorch_fnet

    A shallow embedding of [src/fnet/cli/predict.py] and the properties of its
    helpers: [parse_model], [save_tif], [save_csv], [save_args_as_json],
    [get_dataset] and the sample loop of [main].

    Python values are modelled as follows.
    - [str] is [string]; [str.split], [str.join], [str.isdigit], [str] and
      [int] on decimal numerals are written out below.
    - Exceptions are the [Err] side of [result]; every function that can
      raise returns a [result].
    - The file system is an explicit state [FS] passed through the calls.
    - A pandas frame is a labelled rectangular table ([DataFrame]); a NaN
      cell is [None]. *)

From Stdlib Require Import ZArith Ascii String DecimalString DecimalPos DecimalZ.
From stdpp Require Import base option list sorting strings gmap fin_maps.


(** ** Exceptions *)

(** The Python exceptions that occur, and [OutOfFuel], which is not one: it
    marks a loop of the model that used up its bound on turns. *)
Inductive exn : Type :=
  | ValueError (msg : string)
  | TypeError (msg : string)
  | IndexError (msg : string)
  | KeyError (msg : string)
  | NotImplementedError
  | OSError (msg : string)
  | ParserError (msg : string)
  | OutOfFuel.

Inductive result (A : Type) : Type :=
  | Ok (a : A)
  | Err (e : exn).
Arguments Ok {A} a.
Arguments Err {A} e.

#[global] Instance result_ret : MRet result := λ A a, Ok a.
#[global] Instance result_bind : MBind result := λ A B k r,
  match r with
  | Ok a => k a
  | Err e => Err e
  end.

(** ** Python string operations *)

Module Py.

(** [s.split(sep)] for a one-character separator: the pieces between the
    occurrences of [sep]; never empty, [''.split(sep) == ['']]. *)
Fixpoint split (sep : ascii) (s : string) : list string :=
  match s with
  | EmptyString => [EmptyString]
  | String c r =>
      if Ascii.eqb c sep then EmptyString :: split sep r
      else match split sep r with
           | [] => [String c EmptyString]
           | p :: ps => String c p :: ps
           end
  end.

(** [sep.join(l)]. *)
Fixpoint join (sep : string) (l : list string) : string :=
  match l with
  | [] => EmptyString
  | [x] => x
  | x :: xs => x +:+ sep +:+ join sep xs
  end.

(** Number of occurrences of a character, [s.count(c)]. *)
Fixpoint count (c : ascii) (s : string) : nat :=
  match s with
  | EmptyString => 0
  | String a r => (if Ascii.eqb a c then 1 else 0) + count c r
  end.

(** [l[-2]]; [None] stands for [IndexError]. *)
Definition last2 {A} (l : list A) : option A :=
  match reverse l with
  | _ :: x :: _ => Some x
  | _ => None
  end.

Definition is_digit (c : ascii) : bool :=
  let n := nat_of_ascii c in (48 <=? n)%nat && (n <=? 57)%nat.

(** [s.isdigit()] on ASCII text: non-empty and decimal digits only. *)
Fixpoint all_digits (s : string) : bool :=
  match s with
  | EmptyString => true
  | String c r => is_digit c && all_digits r
  end.
Definition isdigit (s : string) : bool :=
  match s with
  | EmptyString => false
  | _ => all_digits s
  end.

(** [str(n)], and [int(s)] on the numerals that occur here: decimal digits
    after an optional minus sign. *)
Definition str (n : Z) : string := NilEmpty.string_of_int (Z.to_int n).
Definition int (s : string) : option Z :=
  match s with
  | EmptyString => None
  | String c r =>
      if Ascii.eqb c "-"
      then match r with
           | EmptyString => None
           | _ => (λ d, Z.opp (Z.of_uint d)) <$> NilEmpty.uint_of_string r
           end
      else Z.of_uint <$> NilEmpty.uint_of_string s
  end.

End Py.

(** ** posixpath *)

Module Path.

Definition sep : ascii := "/"%char.

Definition startswith_sep (p : string) : bool :=
  match p with
  | String c _ => Ascii.eqb c sep
  | EmptyString => false
  end.

Fixpoint endswith_sep (p : string) : bool :=
  match p with
  | EmptyString => false
  | String c EmptyString => Ascii.eqb c sep
  | String _ r => endswith_sep r
  end.

(** [os.path.join(a, b)]: an absolute [b] replaces [a]; otherwise [b] is
    appended, with a separator unless [a] is empty or already ends with
    one. *)
Definition join (a b : string) : string :=
  if startswith_sep b then b
  else if bool_decide (a = EmptyString) || endswith_sep a then a +:+ b
  else a +:+ "/" +:+ b.

(** [os.path.join(a, *p)]. *)
Definition join_all (a : string) (p : list string) : string :=
  foldl join a p.

(** [os.path.basename(p)]: what follows the last separator. *)
Definition basename (p : string) : string :=
  default EmptyString (last (Py.split sep p)).

Definition isabs (p : string) : bool := startswith_sep p.

(** POSIX keeps exactly two leading slashes apart from one or from three
    and more. *)
Definition initial_slashes (p : string) : nat :=
  match p with
  | String a (String b (String c _)) =>
      if Ascii.eqb a sep
      then if Ascii.eqb b sep && negb (Ascii.eqb c sep) then 2 else 1
      else 0
  | String a (String b EmptyString) =>
      if Ascii.eqb a sep then if Ascii.eqb b sep then 2 else 1 else 0
  | String a EmptyString => if Ascii.eqb a sep then 1 else 0
  | EmptyString => 0
  end.

(** One turn of the loop of [normpath] over the components. *)
Definition norm_step (initial : nat) (new_comps : list string)
    (comp : string) : list string :=
  if bool_decide (comp = "") || bool_decide (comp = ".") then new_comps
  else if bool_decide (comp ≠ "..")
          || (bool_decide (initial = 0) && bool_decide (new_comps = []))
          || bool_decide (last new_comps = Some "..")
  then new_comps ++ [comp]
  else removelast new_comps.

Definition norm_comps (initial : nat) (comps : list string) : list string :=
  foldl (norm_step initial) [] comps.

Fixpoint slashes (n : nat) : string :=
  match n with
  | O => ""
  | S k => String sep (slashes k)
  end.

(** [os.path.normpath(p)]. *)
Definition normpath (p : string) : string :=
  if bool_decide (p = "") then "."
  else
    let initial := initial_slashes p in
    let comps := norm_comps initial (Py.split sep p) in
    let path := slashes initial +:+ Py.join "/" comps in
    if bool_decide (path = "") then "." else path.

(** [os.path.abspath(p)] in the working directory [cwd]. *)
Definition abspath (cwd p : string) : string :=
  normpath (if isabs p then p else join cwd p).

(** Length of the longest common prefix of two component lists
    ([len(commonprefix([start_list, path_list]))]). *)
Fixpoint common_len (l1 l2 : list string) : nat :=
  match l1, l2 with
  | x :: r1, y :: r2 => if bool_decide (x = y) then S (common_len r1 r2) else 0
  | _, _ => 0
  end.

Definition components (p : string) : list string :=
  filter (λ x, x ≠ "") (Py.split sep p).

(** [os.path.relpath(path, start)]. *)
Definition relpath (cwd path start : string) : result string :=
  if bool_decide (path = "") then Err (ValueError "no path specified")
  else
    let start_list := components (abspath cwd start) in
    let path_list := components (abspath cwd path) in
    let i := common_len start_list path_list in
    let rel_list :=
      replicate (length start_list - i) ".." ++ drop i path_list in
    match rel_list with
    | [] => Ok "."
    | a :: p => Ok (join_all a p)
    end.

End Path.

(** ** Model reference strings *)

Record ModelDef := {
  md_path : string;
  md_options : list string;
  md_name : string
}.

(** The message of line 91, [Multiple ":" in specified model]. *)
Definition multiple_sep_msg : string :=
  "Multiple " +:+ String "034" ":" +:+ String "034" " in specified model".

(** [parse_model], lines 86–99.  The dictionary [model_def] has exactly the
    keys ['path'], ['options'] and ['name']. *)
Definition parse_model (model_str : string) : result ModelDef :=
  let parts := Py.split ":" model_str in
  if (2 <? length parts)%nat then
    Err (ValueError multiple_sep_msg)
  else
    let name := Path.basename (nth 0 parts EmptyString) in
    let options :=
      if (length parts =? 2)%nat
      then Py.split "," (nth 1 parts EmptyString)
      else [] in
    Ok {| md_path := nth 0 parts EmptyString;
          md_options := options;
          md_name := Py.join "." ([name] ++ options) |}.

(** ** Command-line arguments *)

(** The namespace built by [add_parser_arguments], lines 143–157. *)
Record Args := {
  path_model_dir : list string;
  add_sigmoid : bool;
  dataset : option string;
  dataset_kwargs : option string;
  gpu_ids : Z;
  idx_sel : option (list Z);
  metric : string;
  n_images : Z;
  no_prediction : bool;
  no_signal : bool;
  no_target : bool;
  path_save_dir : string;
  path_tif : option string
}.

(** ** Data frames *)

(** A cell holds a number or a string (a metric value or an image path). *)
Inductive scalar : Type :=
  | Num (z : Z)
  | Str (s : string).

#[global] Instance scalar_eq_dec : EqDecision scalar.
Proof. solve_decision. Defined.

(** A frame with its row labels ([df.index]), its column labels
    ([df.columns]) and its cells by position ([df.values]); [None] is NaN.
    Labels are looked up at their first occurrence. *)
Record DataFrame := {
  index : list Z;
  columns : list string;
  values : list (list (option scalar))
}.

(** An image payload; the elements are never inspected. *)
Definition ndarray := list Z.

(** ** File system *)

Inductive content : Type :=
  | Tif (ar : ndarray)
  | Csv (t : DataFrame)
  | Json (doc : Args).

(** Paths are kept as the strings the program builds.  Operations on the
    file system succeed, except where stated ([makedirs] on an existing
    path, reading a file of another kind). *)
Record FS := {
  cwd : string;
  dirs : gset string;
  files : gmap string content
}.

Module Os.

(** [os.path.exists(p)]. *)
Definition exists_ (fs : FS) (p : string) : bool :=
  bool_decide (p ∈ dirs fs) || bool_decide (is_Some (files fs !! p)).

(** The proper prefixes of a path that end just before a separator. *)
Fixpoint dir_prefixes (pre rest : string) : list string :=
  match rest with
  | EmptyString => []
  | String c r =>
      (if Ascii.eqb c Path.sep && negb (bool_decide (pre = ""))
       then [pre] else [])
      ++ dir_prefixes (pre +:+ String c "") r
  end.

(** [os.makedirs(p)]: the directory and its missing ancestors;
    [FileExistsError] when [p] is there already. *)
Definition makedirs (fs : FS) (p : string) : result FS :=
  if exists_ fs p then Err (OSError "File exists")
  else Ok {| cwd := cwd fs;
             dirs := dirs fs ∪ list_to_set (dir_prefixes "" p) ∪ {[ p ]};
             files := files fs |}.

(** Writing a file creates it or replaces its content. *)
Definition write (fs : FS) (p : string) (c : content) : FS :=
  {| cwd := cwd fs; dirs := dirs fs; files := <[ p := c ]> (files fs) |}.

End Os.

(** ** Image files *)

(** [save_tif], lines 56–83.  The two [print] calls leave no trace in the
    file system and are left out. *)
Definition save_tif (fname : string) (ar : ndarray) (path_root : string)
    (fs : FS) : result (FS * string) :=
  let path_tif_dir := Path.join path_root "tifs" in
  fs ← (if negb (Os.exists_ fs path_tif_dir)
        then Os.makedirs fs path_tif_dir
        else Ok fs);
  let path_save := Path.join path_tif_dir fname in
  let fs := Os.write fs path_save (Tif ar) in
  rel ← Path.relpath (cwd fs) path_save path_root;
  Ok (fs, rel).

(** ** pandas *)

Module Pd.

(** Position of the first occurrence of a label on an axis. *)
Fixpoint get_loc {A} `{EqDecision A} (x : A) (l : list A) : option nat :=
  match l with
  | [] => None
  | y :: r => if decide (y = x) then Some 0 else S <$> get_loc x r
  end.

(** [df.at[i, c]], with NaN for a label that is missing on either axis. *)
Definition cell (df : DataFrame) (i : Z) (c : string) : option scalar :=
  r ← get_loc i (index df);
  k ← get_loc c (columns df);
  row ← values df !! r;
  mjoin (row !! k).

(** The frame with the given labels whose cells are given by [f]. *)
Definition frame (idx : list Z) (cols : list string)
    (f : Z → string → option scalar) : DataFrame :=
  {| index := idx;
     columns := cols;
     values := (λ i, (λ c, f i c) <$> cols) <$> idx |}.

(** Column labels are compared as Python compares [str], character by
    character: this is the order [String.le]. *)

(** [a.union(b)] on the labels of an axis: the labels of both sides, each
    once and sorted, except that the result is left as it is when the two
    sides are equal or one of them is empty.  This is the outcome for labels
    without repetition; how pandas pairs rows whose label repeats is not
    modelled. *)
Definition union {A} `{EqDecision A} (le : relation A)
    `{!RelDecision le} (a b : list A) : list A :=
  if decide (a = b) then a
  else if decide (a = []) then b
  else if decide (b = []) then a
  else merge_sort le (remove_dups (a ++ b)).

(** [new.combine_first(old)]: both axes are the unions of the labels; a
    cell is taken from [new] unless it is NaN there. *)
Definition combine_first (new old : DataFrame) : DataFrame :=
  frame (union Z.le (index new) (index old))
        (union String.le (columns new) (columns old))
        (λ i c, match cell new i c with
                | Some v => Some v
                | None => cell old i c
                end).

(** [df.sort_index(axis=1)]. *)
Definition sort_index_columns (df : DataFrame) : DataFrame :=
  frame (index df) (merge_sort String.le (columns df)) (cell df).

(** Lines 105–107: [pd.read_csv(path)] followed by [set_index] on the
    first column.  A stored table is kept by its row labels already, so
    the two steps together return it as it was written. *)
Definition read_csv (fs : FS) (path : string) : result DataFrame :=
  match files fs !! path with
  | Some (Csv t) => Ok t
  | Some _ => Err (ParserError "Error tokenizing data")
  | None => Err (OSError "No such file")
  end.

(** [df.to_csv(path)]. *)
Definition to_csv (df : DataFrame) (fs : FS) (path : string) : result FS :=
  Ok (Os.write fs path (Csv df)).

End Pd.

(** Modelled from the spec: [fnet.utils.general_utils.retry_if_oserror] is
    not among the sources.  Section 4.4 has the wrapped write tried again on
    an OS-level failure, a bounded number of times, before the error
    surfaces; any other outcome is passed on. *)
Fixpoint retry_if_oserror {A B} (attempts : nat) (fn : A → result B)
    (a : A) : result B :=
  match fn a with
  | Err (OSError msg) =>
      match attempts with
      | O => Err (OSError msg)
      | S k => retry_if_oserror k fn a
      end
  | r => r
  end.

(** The bound on the attempts is not visible from [predict.py]; writes do
    not fail in this file system, so its value plays no part below. *)
Definition retry_attempts : nat := 3.

(** ** Result table *)

(** [save_csv], lines 102–111. *)
Definition save_csv (path_csv : string) (df : DataFrame) (fs : FS)
    : result FS :=
  df ← (if Os.exists_ fs path_csv then
          df_old ← Pd.read_csv fs path_csv;
          Ok (Pd.combine_first df df_old)
        else Ok df);
  let df := Pd.sort_index_columns df in
  retry_if_oserror retry_attempts (Pd.to_csv df fs) path_csv.

(** ** Snapshot of the arguments *)

(** The [while] loop of lines 130–137, run for at most [fuel] turns. *)
Fixpoint free_json_path (fuel : nat) (fs : FS) (path_save_dir : string)
    (path_json : string) : result string :=
  if Os.exists_ fs path_json then
    match fuel with
    | O => Err OutOfFuel
    | S fuel =>
        match Py.last2 (Py.split "." path_json) with
        | None => Err (IndexError "list index out of range")
        | Some number =>
            let number := if Py.isdigit number then number else "-1" in
            match Py.int number with
            | None => Err (ValueError "invalid literal for int()")
            | Some n =>
                let number := Py.str (n + 1) in
                free_json_path fuel fs path_save_dir
                  (Path.join path_save_dir
                     (Py.join "." ["predict_options"; number; "json"]))
            end
        end
    end
  else Ok path_json.

(** [save_args_as_json], lines 114–140; the document written is
    [vars(args)]. *)
Definition save_args_as_json (fuel : nat) (path_save_dir : string)
    (args : Args) (fs : FS) : result FS :=
  let path_json := Path.join path_save_dir "predict_options.json" in
  path_json ← free_json_path fuel fs path_save_dir path_json;
  Ok (Os.write fs path_json (Json args)).

(** The paths that exist. *)
Definition paths (fs : FS) : gset string := dirs fs ∪ dom (files fs).

(** Turns that always suffice: one more than the paths that exist. *)
Definition enough_fuel (fs : FS) : nat := S (size (paths fs)).

(** ** Datasets, models and metrics *)

(** A tensor is the list of its planes along the leading dimension. *)
Definition Tensor := list ndarray.

(** What [main] uses of a dataset: [dataset.df.index], its [name], and
    [dataset.loc[idx]], a tuple of tensors.  A tuple whose target is [None]
    is given as the tuple without the target: [main] treats the two alike. *)
Record Dataset := {
  ds_index : list Z;
  ds_index_name : option string;
  ds_loc : Z → result (list Tensor)
}.

(** What [main] uses of a model: [predict_piecewise(signal, tta=...)]. *)
Record Model := {
  predict_piecewise : Tensor → bool → result (option Tensor)
}.

(** Objects that a dotted name can resolve to. *)
Inductive pyobject : Type :=
  | PyDatasetFn (call : option string → result Dataset)
  | PyMetricFn (call : option Tensor → option Tensor → result scalar)
  | PyNotCallable.

(** The parts of the package and of torch that [predict.py] imports and
    whose code lies elsewhere: they are taken as given. *)
Record Externals := {
  str_to_object : string → result pyobject;
  load_model : string → result Model;
  sigmoid : Tensor → Tensor;
  files_from_dir : FS → string → list string;
  TiffDataset : list string → Dataset
}.

Definition is_not_None {A} (o : option A) : bool :=
  match o with Some _ => true | None => false end.

(** [sum] of a list of booleans, as Python adds them. *)
Definition sum_bool (l : list bool) : nat :=
  foldr (λ (b : bool) n, (if b then 1 else 0) + n) 0 l.

(** [get_dataset], lines 22–53. *)
Definition get_dataset (ext : Externals) (args : Args) (fs : FS)
    : result Dataset :=
  if negb (sum_bool [is_not_None (dataset args);
                     is_not_None (path_tif args)] =? 1)%nat then
    Err (ValueError "Must specify one input source type")
  else
    match dataset args with
    | Some name =>
        ds_fn ← str_to_object ext name;
        match ds_fn with
        | PyDatasetFn call => call (dataset_kwargs args)
        | PyMetricFn _ => Err (TypeError "unexpected keyword argument")
        | PyNotCallable => Err (ValueError (name +:+ " must be callable"))
        end
    | None =>
        match path_tif args with
        | Some p =>
            if negb (Os.exists_ fs p) then
              Err (ValueError ("Path does not exists: " +:+ p))
            else
              let paths_tif :=
                if bool_decide (p ∈ dirs fs) then files_from_dir ext fs p
                else [p] in
              Ok (TiffDataset ext paths_tif)
        | None => Err NotImplementedError
        end
    end.

(** ** The run *)

(** A row under construction: a Python [dict], keys in insertion order. *)
Definition entry := list (string * scalar).

Fixpoint dict_set (d : entry) (k : string) (v : scalar) : entry :=
  match d with
  | [] => [(k, v)]
  | (k', v') :: r =>
      if decide (k' = k) then (k, v) :: r else (k', v') :: dict_set r k v
  end.

Fixpoint dict_get (d : entry) (k : string) : option scalar :=
  match d with
  | [] => None
  | (k', v) :: r => if decide (k' = k) then Some v else dict_get r k
  end.

(** Keys of all rows in the order of their first appearance. *)
Definition all_keys (entries : list entry) : list string :=
  remove_dups (concat ((λ d : entry, d.*1) <$> entries)).

(** [pd.DataFrame(entries).set_index(index_name)].  Row labels are the
    integers found under [index_name]; a row without one is reported as
    [KeyError], frames with other labels being outside this model. *)
Definition frame_of_entries (index_name : string) (entries : list entry)
    : result DataFrame :=
  labels ← foldr (λ (d : entry) (acc : result (list Z)),
                    match dict_get d index_name with
                    | Some (Num i) => l ← acc; Ok (i :: l)
                    | _ => Err (KeyError index_name)
                    end) (Ok []) entries;
  let cols := filter (λ k, k ≠ index_name) (all_keys entries) in
  Ok {| index := labels;
        columns := cols;
        values := (λ d : entry, (λ c, dict_get d c) <$> cols) <$> entries |}.

(** The state of a run: the file system; the samples announced by the
    [print] of line 177, each with its [count]; and the calls to [save_csv],
    each with the value of [count] and the rows handed over. *)
Record RunState := {
  rs_fs : FS;
  rs_processing : list (Z * nat);
  rs_flushes : list (nat * list entry)
}.

(** Computations of [main]: they read and change the state and may raise;
    the state at the point of an exception is kept. *)
Definition M (A : Type) : Type := RunState → result A * RunState.

Definition retM {A} (a : A) : M A := λ s, (Ok a, s).
Definition raiseM {A} (e : exn) : M A := λ s, (Err e, s).
Definition bindM {A B} (m : M A) (k : A → M B) : M B :=
  λ s, match m s with
       | (Ok a, s') => k a s'
       | (Err e, s') => (Err e, s')
       end.

Notation "'do' x <- m ; k" := (bindM m (λ x, k))
  (at level 10, x name, m at level 100, k at level 200, only parsing).
Notation "'do' ' p <- m ; k" := (bindM m (λ p, k))
  (at level 10, p pattern, m at level 100, k at level 200, only parsing).

(** A pure computation that may raise. *)
Definition liftR {A} (r : result A) : M A :=
  match r with
  | Ok a => retM a
  | Err e => raiseM e
  end.

(** A helper on the file system that returns a value. *)
Definition on_fs {A} (f : FS → result (FS * A)) : M A :=
  λ s, match f (rs_fs s) with
       | Ok (fs, a) => (Ok a, {| rs_fs := fs;
                                 rs_processing := rs_processing s;
                                 rs_flushes := rs_flushes s |})
       | Err e => (Err e, s)
       end.

(** A helper on the file system that returns nothing. *)
Definition on_fs_ (f : FS → result FS) : M unit :=
  on_fs (λ fs, fs' ← f fs; Ok (fs', tt)).

Definition log_processing (idx : Z) (count : nat) : M unit :=
  λ s, (Ok tt, {| rs_fs := rs_fs s;
                  rs_processing := rs_processing s ++ [(idx, count)];
                  rs_flushes := rs_flushes s |}).

Definition log_flush (count : nat) (entries : list entry) : M unit :=
  λ s, (Ok tt, {| rs_fs := rs_fs s;
                  rs_processing := rs_processing s;
                  rs_flushes := rs_flushes s ++ [(count, entries)] |}).

(** [l[:stop]], lines 173–175: [None] keeps the list, a non-negative stop
    keeps that many items, a negative one drops from the end. *)
Definition slice_to {A} (stop : option Z) (l : list A) : list A :=
  match stop with
  | None => l
  | Some k =>
      if (0 <=? k)%Z then take (Z.to_nat k) l
      else take (length l - Z.to_nat (- k)) l
  end.

(** The indices of a run, lines 173–175. *)
Definition selected_indices (args : Args) (ds : Dataset) : list Z :=
  slice_to (if (0 <? n_images args)%Z then Some (n_images args) else None)
           (match idx_sel args with
            | Some sel => sel
            | None => ds_index ds
            end).

Definition get_fs : M FS := λ s, (Ok (rs_fs s), s).

(** Lines 192–196: the model to predict with.  It is parsed and loaded when
    none is loaded yet, and again at every turn when several are given. *)
Definition current_model (ext : Externals) (args : Args) (p : string)
    (cache : option (Model * ModelDef)) : result (Model * ModelDef) :=
  let fresh :=
    model_def ← parse_model p;
    model ← load_model ext (md_path model_def);
    Ok (model, model_def) in
  match cache with
  | None => fresh
  | Some c => if (1 <? length (path_model_dir args))%nat then fresh else Ok c
  end.

(** [metric(target, prediction)], line 203. *)
Definition call_metric (metric_fn : pyobject) (target prediction : option Tensor)
    : result scalar :=
  match metric_fn with
  | PyMetricFn call => call target prediction
  | PyDatasetFn _ => Err (TypeError "unexpected positional arguments")
  | PyNotCallable => Err (TypeError "object is not callable")
  end.

(** [t.numpy()[0, ]]. *)
Definition first_plane (t : Tensor) : result ndarray :=
  match t with
  | ar :: _ => Ok ar
  | [] => Err (IndexError "index 0 is out of bounds")
  end.

(** Lines 206–211, from channel [idx_c] on. *)
Fixpoint save_channels (args : Args) (idx : Z) (name : string) (idx_c : nat)
    (planes : list ndarray) (e : entry) : M entry :=
  match planes with
  | [] => retM e
  | pred_c :: rest =>
      let tag := "prediction_c" +:+ Py.str (Z.of_nat idx_c) +:+ "." +:+ name in
      do p <- on_fs (save_tif (Py.str idx +:+ "_" +:+ tag +:+ ".tif") pred_c
                              (path_save_dir args));
      save_channels args idx name (S idx_c) rest
        (dict_set e ("path_" +:+ tag) (Str p))
  end.

(** Lines 192–211: one model on one sample. *)
Definition predict_one (ext : Externals) (args : Args) (metric_fn : pyobject)
    (idx : Z) (signal : Tensor) (target : option Tensor) (p : string)
    (vars : option (Model * ModelDef) * entry)
    : M (option (Model * ModelDef) * entry) :=
  let '(cache, e) := vars in
  do '(model, model_def) <- liftR (current_model ext args p cache);
  do prediction <- liftR (predict_piecewise model signal
                     (negb (bool_decide ("no_tta" ∈ md_options model_def))));
  do prediction <- liftR (if add_sigmoid args then
                            match prediction with
                            | Some t => Ok (Some (sigmoid ext t))
                            | None => Err (TypeError "sigmoid(): NoneType")
                            end
                          else Ok prediction);
  do evaluation <- liftR (call_metric metric_fn target prediction);
  let e := dict_set e (metric args +:+ "." +:+ md_name model_def) evaluation in
  do e <- match prediction with
          | Some t =>
              if negb (no_prediction args)
              then save_channels args idx (md_name model_def) 0 t e
              else retM e
          | None => retM e
          end;
  retM (Some (model, model_def), e).

Fixpoint for_models (ext : Externals) (args : Args) (metric_fn : pyobject)
    (idx : Z) (signal : Tensor) (target : option Tensor) (ps : list string)
    (vars : option (Model * ModelDef) * entry)
    : M (option (Model * ModelDef) * entry) :=
  match ps with
  | [] => retM vars
  | p :: rest =>
      do vars <- predict_one ext args metric_fn idx signal target p vars;
      for_models ext args metric_fn idx signal target rest vars
  end.

(** Lines 178–211: the row of one sample. *)
Definition process_sample (ext : Externals) (args : Args)
    (metric_fn : pyobject) (ds : Dataset) (index_name : string) (idx : Z)
    (cache : option (Model * ModelDef))
    : M (option (Model * ModelDef) * entry) :=
  let e := dict_set [] index_name (Num idx) in
  do data <- liftR (ds_loc ds idx);
  do signal <- liftR (match data with
                      | s :: _ => Ok s
                      | [] => Err (IndexError "tuple index out of range")
                      end);
  let target := if (1 <? length data)%nat then data !! 1%nat else None in
  do e <- (if negb (no_signal args) then
             do plane <- liftR (first_plane signal);
             do p <- on_fs (save_tif (Py.str idx +:+ "_signal.tif") plane
                                     (path_save_dir args));
             retM (dict_set e "path_signal" (Str p))
           else retM e);
  do e <- (match target with
           | Some t =>
               if negb (no_target args) then
                 do plane <- liftR (first_plane t);
                 do p <- on_fs (save_tif (Py.str idx +:+ "_target.tif") plane
                                         (path_save_dir args));
                 retM (dict_set e "path_target" (Str p))
               else retM e
           | None => retM e
           end);
  for_models ext args metric_fn idx signal target (path_model_dir args)
    (cache, e).

(** Lines 213–217: the test for a flush and the call of [save_csv]. *)
Definition flush_due (indices : list Z) (count : nat) (idx : Z) : bool :=
  (count mod 8 =? 0)%nat || bool_decide (Some idx = last indices).
Arguments flush_due : simpl never.

Definition flush (args : Args) (index_name : string) (count : nat)
    (entries : list entry) : M unit :=
  do df <- liftR (frame_of_entries index_name entries);
  do _ <- log_flush count entries;
  on_fs_ (save_csv (Path.join (path_save_dir args) "predictions.csv") df).

(** Lines 176–217: the loop over [enumerate(indices, 1)], from the pair
    [count], [todo] on; [entries] and [model] are the variables of [main]
    that live across the turns. *)
Fixpoint sample_loop (ext : Externals) (args : Args) (metric_fn : pyobject)
    (ds : Dataset) (index_name : string) (indices : list Z) (count : nat)
    (todo : list Z) (vars : option (Model * ModelDef) * list entry)
    : M (option (Model * ModelDef) * list entry) :=
  match todo with
  | [] => retM vars
  | idx :: rest =>
      let '(cache, entries) := vars in
      do _ <- log_processing idx count;
      do '(cache, e) <- process_sample ext args metric_fn ds index_name idx cache;
      let entries := entries ++ [e] in
      do _ <- (if flush_due indices count idx
               then flush args index_name count entries
               else retM tt);
      sample_loop ext args metric_fn ds index_name indices (S count) rest
        (cache, entries)
  end.

(** [dataset.df.index.name or 'index'], line 168. *)
Definition index_name_of (ds : Dataset) : string :=
  match ds_index_name ds with
  | Some n => if bool_decide (n = "") then "index" else n
  | None => "index"
  end.

(** [main], lines 160–218, for parsed arguments.  [fuel] bounds the loop of
    [save_args_as_json]. *)
Definition main (ext : Externals) (fuel : nat) (args : Args) : M unit :=
  do metric_fn <- liftR (str_to_object ext (metric args));
  do fs <- get_fs;
  do ds <- liftR (get_dataset ext args fs);
  let index_name := index_name_of ds in
  do _ <- (if negb (Os.exists_ fs (path_save_dir args))
           then on_fs_ (λ fs, Os.makedirs fs (path_save_dir args))
           else retM tt);
  let indices := selected_indices args ds in
  do _ <- sample_loop ext args metric_fn ds index_name indices 1 indices
            (None, []);
  on_fs_ (save_args_as_json fuel (path_save_dir args) args).

(** ** Vocabulary of the statements *)

(** A computation that leaves the two records of the run as they are. *)
Definition keeps_logs {A} (m : M A) : Prop :=
  ∀ s, rs_processing (m s).2 = rs_processing s
       ∧ rs_flushes (m s).2 = rs_flushes s.

(** The values of [count] at which the loop calls [save_csv], from the pair
    [count], [todo] on. *)
Fixpoint flush_counts (indices : list Z) (count : nat) (todo : list Z)
    : list nat :=
  match todo with
  | [] => []
  | idx :: rest =>
      (if flush_due indices count idx then [count] else [])
      ++ flush_counts indices (S count) rest
  end.

(** The sequence the indices are cut from, lines 173–174. *)
Definition index_order (args : Args) (ds : Dataset) : list Z :=
  match idx_sel args with
  | Some sel => sel
  | None => ds_index ds
  end.

(** Both sources of samples given, or none. *)
Definition ambiguous_source (args : Args) : Prop :=
  (is_Some (dataset args) ∧ is_Some (path_tif args))
  ∨ (dataset args = None ∧ path_tif args = None).

(** The counts at which the specification has the table written in a run
    over [n] samples: the multiples of eight, and [n]. *)
Definition scheduled_counts (n : nat) : list nat :=
  filter (λ c, c mod 8 = 0 ∨ c = n) (seq 1 n).

(** A plain file name: not empty, without separator, and neither [.] nor
    [..]. *)
Definition is_basename (fname : string) : Prop :=
  fname ≠ "" ∧ Py.count Path.sep fname = 0 ∧ fname ≠ "." ∧ fname ≠ "..".

#[global] Instance is_basename_dec fname : Decision (is_basename fname).
Proof. unfold is_basename. apply _. Defined.


(** The names of the snapshots: the default one, and the numbered ones. *)
Definition default_snapshot (path_save_dir : string) : string :=
  Path.join path_save_dir "predict_options.json".

Definition numbered_snapshot (path_save_dir : string) (n : Z) : string :=
  Path.join path_save_dir (Py.join "." ["predict_options"; Py.str n; "json"]).

(** [p] is the first name that does not exist in the sequence of the default
    name and the names numbered 0, 1, 2, ... *)
Definition first_free_snapshot (path_save_dir : string) (fs : FS)
    (p : string) : Prop :=
  Os.exists_ fs p = false
  ∧ (p = default_snapshot path_save_dir
     ∨ (Os.exists_ fs (default_snapshot path_save_dir) = true
        ∧ ∃ n, (0 ≤ n)%Z
            ∧ p = numbered_snapshot path_save_dir n
            ∧ ∀ j, (0 ≤ j < n)%Z →
                   Os.exists_ fs (numbered_snapshot path_save_dir j) = true)).

(** The value the merge takes for a cell: the new one unless it is NaN. *)
Definition prefer_new (new old : option scalar) : option scalar :=
  match new with
  | Some v => Some v
  | None => old
  end.

(** The labels of each axis are distinct. *)
Definition unique_labels (df : DataFrame) : Prop :=
  NoDup (index df) ∧ NoDup (columns df).

(** The destination of the table is free, or holds a table. *)
Definition destination_ok (fs : FS) (path_csv : string) : Prop :=
  Os.exists_ fs path_csv = false
  ∨ ∃ old, files fs !! path_csv = Some (Csv old).


(** ** A small run, for the instances below *)

Module Demo.

Definition fs : FS := {| cwd := "/home/u"; dirs := ∅; files := ∅ |}.

Definition ds : Dataset :=
  {| ds_index := [3; 1; 4; 1; 5]%Z;
     ds_index_name := None;
     ds_loc := λ i, Ok [[[i]]] |}.

Definition ext : Externals :=
  {| str_to_object := λ n,
       if decide (n = "metric") then Ok (PyMetricFn (λ _ _, Ok (Num 0)))
       else Ok (PyDatasetFn (λ _, Ok ds));
     load_model := λ _, Ok {| predict_piecewise := λ t _, Ok (Some t) |};
     sigmoid := id;
     files_from_dir := λ _ _, [];
     TiffDataset := λ _, ds |}.

Definition args : Args :=
  {| path_model_dir := ["models/a:no_tta"];
     add_sigmoid := false;
     dataset := Some "dataset";
     dataset_kwargs := None;
     gpu_ids := 0;
     idx_sel := None;
     metric := "metric";
     n_images := 3;
     no_prediction := false;
     no_signal := false;
     no_target := false;
     path_save_dir := "out";
     path_tif := None |}.

Definition start : RunState :=
  {| rs_fs := fs; rs_processing := []; rs_flushes := [] |}.

(** The example of the specification for the merge, with the sample 7 in
    the place of [a]; and a batch and a table with unsorted columns. *)
Definition old_table : DataFrame :=
  {| index := [7%Z];
     columns := ["x"; "y"];
     values := [[Some (Num 1); Some (Num 2)]] |}.

Definition new_batch : DataFrame :=
  {| index := [7%Z];
     columns := ["x"];
     values := [[Some (Num 9)]] |}.

Definition fs_with_table : FS :=
  Os.write fs "out/predictions.csv" (Csv old_table).

Definition unsorted_table : DataFrame :=
  {| index := [2%Z];
     columns := ["path_signal"; "Zeta"];
     values := [[Some (Str "tifs/2_signal.tif"); None]] |}.

Definition unsorted_batch : DataFrame :=
  {| index := [3%Z; 1%Z];
     columns := ["path_target"; "metric.a"];
     values := [[Some (Str "tifs/3_target.tif"); Some (Num 1)];
                [None; Some (Num 0)]] |}.

Definition fs_with_unsorted : FS :=
  Os.write fs "out/predictions.csv" (Csv unsorted_table).

(** The same arguments with an explicit choice of indices and no cap. *)
Definition with_indices (sel : list Z) : Args :=
  {| path_model_dir := path_model_dir args;
     add_sigmoid := add_sigmoid args;
     dataset := dataset args;
     dataset_kwargs := dataset_kwargs args;
     gpu_ids := gpu_ids args;
     idx_sel := Some sel;
     metric := metric args;
     n_images := -1;
     no_prediction := no_prediction args;
     no_signal := no_signal args;
     no_target := no_target args;
     path_save_dir := path_save_dir args;
     path_tif := path_tif args |}.

(** The same arguments with both sources of samples. *)
Definition both_sources : Args :=
  {| path_model_dir := path_model_dir args;
     add_sigmoid := add_sigmoid args;
     dataset := dataset args;
     dataset_kwargs := dataset_kwargs args;
     gpu_ids := gpu_ids args;
     idx_sel := idx_sel args;
     metric := metric args;
     n_images := n_images args;
     no_prediction := no_prediction args;
     no_signal := no_signal args;
     no_target := no_target args;
     path_save_dir := path_save_dir args;
     path_tif := Some "images" |}.

End Demo.

(** ** Vocabulary of the further properties *)

(** The file system once the directory [d] is there: unchanged when the path
    exists, and with [d] and its ancestors as directories otherwise.  This
    is the effect of the guarded [os.makedirs] of lines 77–78 and
    169–170. *)
Definition with_dir (fs : FS) (d : string) : FS :=
  if Os.exists_ fs d then fs
  else {| cwd := cwd fs;
          dirs := dirs fs ∪ list_to_set (Os.dir_prefixes "" d) ∪ {[ d ]};
          files := files fs |}.

(** The path of the result table of a run, line 215. *)
Definition predictions_csv (args : Args) : string :=
  Path.join (path_save_dir args) "predictions.csv".

(** The cell of the table stored at a path; NaN when no table is there. *)
Definition stored_cell (fs : FS) (path_csv : string) (i : Z) (c : string)
    : option scalar :=
  match files fs !! path_csv with
  | Some (Csv t) => Pd.cell t i c
  | _ => None
  end.

(** The runs of a list, one after the other: the snapshot of each is saved
    in the same directory, with turns enough for its loop. *)
Fixpoint snapshots (runs : list Args) (path_save_dir : string) (fs : FS)
    : result FS :=
  match runs with
  | [] => Ok fs
  | args :: rest =>
      fs' ← save_args_as_json (enough_fuel fs) path_save_dir args fs;
      snapshots rest path_save_dir fs'
  end.

(** The name of the snapshot number [k] of a directory, counted from 0: the
    default name, then the names numbered 0, 1, 2, ... *)
Definition snapshot_name (path_save_dir : string) (k : nat) : string :=
  match k with
  | O => default_snapshot path_save_dir
  | S j => numbered_snapshot path_save_dir (Z.of_nat j)
  end.

(** The files of a run: the result table, the snapshots, and what is
    joined to the directory [tifs] as a relative name. *)
Definition output_file (args : Args) (p : string) : Prop :=
  p = predictions_csv args
  ∨ (∃ k, p = snapshot_name (path_save_dir args) k)
  ∨ ∃ fname, Path.startswith_sep fname = false
             ∧ p = Path.join (Path.join (path_save_dir args) "tifs") fname.

(** The directories of a run: the output directory, its subdirectory
    [tifs], and the ancestors that [os.makedirs] makes with them. *)
Definition output_dir (args : Args) (d : string) : Prop :=
  d = path_save_dir args
  ∨ d ∈ Os.dir_prefixes "" (path_save_dir args)
  ∨ d = Path.join (path_save_dir args) "tifs"
  ∨ d ∈ Os.dir_prefixes "" (Path.join (path_save_dir args) "tifs").

(** A change of the file system that stays within the files and the
    directories of a run, and removes nothing. *)
Definition fs_confined (args : Args) (fs fs' : FS) : Prop :=
  cwd fs' = cwd fs
  ∧ dirs fs ⊆ dirs fs'
  ∧ dom (files fs) ⊆ dom (files fs')
  ∧ (∀ p, ¬ output_file args p → files fs' !! p = files fs !! p)
  ∧ (∀ d, d ∈ dirs fs' → d ∈ dirs fs ∨ output_dir args d).

(** A computation all of whose changes are of that kind, whether it returns
    or raises. *)
Definition confined (args : Args) {A} (m : M A) : Prop :=
  ∀ s, fs_confined args (rs_fs s) (rs_fs (m s).2).

(** A name of the index column that no other key of a row can take: the
    keys of the metrics and of the predictions hold a [.], the two others
    are [path_signal] and [path_target]. *)
Definition plain_index_name (n : string) : Prop :=
  Py.count "." n = 0 ∧ n ≠ "path_signal" ∧ n ≠ "path_target".

(** What the rows hold under the name of the index column. *)
Definition labels_of (index_name : string) (entries : list entry)
    : list (option scalar) :=
  (λ e : entry, dict_get e index_name) <$> entries.

(** Arguments and externals for the instances of the further properties. *)
Module More.

(** The arguments of [Demo] with a path as the source of the samples. *)
Definition path_source (p : string) : Args :=
  {| path_model_dir := path_model_dir Demo.args;
     add_sigmoid := add_sigmoid Demo.args;
     dataset := None;
     dataset_kwargs := dataset_kwargs Demo.args;
     gpu_ids := gpu_ids Demo.args;
     idx_sel := idx_sel Demo.args;
     metric := metric Demo.args;
     n_images := n_images Demo.args;
     no_prediction := no_prediction Demo.args;
     no_signal := no_signal Demo.args;
     no_target := no_target Demo.args;
     path_save_dir := path_save_dir Demo.args;
     path_tif := Some p |}.

(** The arguments of [Demo] with other model references. *)
Definition with_models (ps : list string) (sel : list Z) : Args :=
  {| path_model_dir := ps;
     add_sigmoid := add_sigmoid Demo.args;
     dataset := dataset Demo.args;
     dataset_kwargs := dataset_kwargs Demo.args;
     gpu_ids := gpu_ids Demo.args;
     idx_sel := Some sel;
     metric := metric Demo.args;
     n_images := -1;
     no_prediction := no_prediction Demo.args;
     no_signal := no_signal Demo.args;
     no_target := no_target Demo.args;
     path_save_dir := path_save_dir Demo.args;
     path_tif := path_tif Demo.args |}.

(** Externals in which the name of the dataset resolves to an object that
    cannot be called. *)
Definition not_callable : Externals :=
  {| str_to_object := λ _, Ok PyNotCallable;
     load_model := load_model Demo.ext;
     sigmoid := sigmoid Demo.ext;
     files_from_dir := files_from_dir Demo.ext;
     TiffDataset := TiffDataset Demo.ext |}.

(** A file system in which the output directory is taken by a directory
    named like the result table. *)
Definition fs_with_dir : FS :=
  {| cwd := "/home/u"; dirs := {[ "out/predictions.csv" ]}; files := ∅ |}.

End More.

(** * Properties *)

(** ** Strings *)

Lemma string_app_cons (x : ascii) (a b : string) :
  String x a +:+ b = String x (a +:+ b).
Proof. reflexivity. Qed.

Lemma string_app_nil_l (b : string) : "" +:+ b = b.
Proof. reflexivity. Qed.

Lemma string_app_assoc (a b c : string) : (a +:+ b) +:+ c = a +:+ (b +:+ c).
Proof.
  induction a as [|x a IH]; [done|].
  rewrite !string_app_cons. by rewrite IH.
Qed.


Section split_facts.
Variable sep : ascii.

Lemma split_nonempty s : Py.split sep s ≠ [].
Proof.
  destruct s as [|c r]; simpl; [done|].
  destruct (Ascii.eqb c sep); [done|].
  by destruct (Py.split sep r).
Qed.

Lemma split_length s : length (Py.split sep s) = S (Py.count sep s).
Proof.
  induction s as [|c r IH]; simpl; [done|].
  destruct (Ascii.eqb c sep); simpl; [by rewrite IH|].
  destruct (Py.split sep r) eqn:E; simpl in *; [done|lia].
Qed.

Lemma split_no_sep s : Py.count sep s = 0 → Py.split sep s = [s].
Proof.
  induction s as [|c r IH]; simpl; [done|].
  destruct (Ascii.eqb c sep); simpl; [done|].
  intros H. by rewrite IH.
Qed.

(** Splitting at a separator splits the pieces. *)
Lemma split_app a b :
  Py.split sep (a +:+ String sep b) = Py.split sep a ++ Py.split sep b.
Proof.
  induction a as [|c r IH].
  - rewrite string_app_nil_l. simpl. by rewrite Ascii.eqb_refl.
  - rewrite string_app_cons. simpl.
    destruct (Ascii.eqb c sep); simpl; [by rewrite IH|].
    rewrite IH. pose proof (split_nonempty r).
    by destruct (Py.split sep r).
Qed.

Lemma count_app a b : Py.count sep (a +:+ b) = Py.count sep a + Py.count sep b.
Proof.
  induction a as [|c r IH]; [done|].
  rewrite string_app_cons. simpl. rewrite IH. lia.
Qed.

(** No piece of a split holds the separator. *)
Lemma split_pieces s p : p ∈ Py.split sep s → Py.count sep p = 0.
Proof.
  revert p. induction s as [|c r IH]; simpl; intros p.
  - by intros ->%list_elem_of_singleton.
  - destruct (Ascii.eqb c sep) eqn:Ec.
    + intros [->|H]%elem_of_cons; [done|by apply IH].
    + pose proof (split_nonempty r).
      destruct (Py.split sep r) as [|q qs]; [done|].
      intros [->|H']%elem_of_cons.
      * simpl. rewrite Ec. apply IH. by left.
      * apply IH. by right.
Qed.

(** Joining the pieces with the separator gives the string back. *)
Lemma join_split s : Py.join (String sep "") (Py.split sep s) = s.
Proof.
  induction s as [|c r IH]; simpl; [done|].
  pose proof (split_nonempty r).
  destruct (Ascii.eqb c sep) eqn:Ec.
  - apply Ascii.eqb_eq in Ec as ->.
    destruct (Py.split sep r); [done|]. simpl in *. by rewrite IH.
  - destruct (Py.split sep r) as [|q [|q' qs]]; [done|..]; simpl in *.
    + by rewrite IH.
    + rewrite string_app_cons. by rewrite IH.
Qed.
End split_facts.

(** ** [parse_model] *)

Lemma parse_model_many_seps s :
  1 < Py.count ":" s →
  parse_model s = Err (ValueError multiple_sep_msg).
Proof.
  intros H. unfold parse_model. rewrite split_length.
  destruct (2 <? S (Py.count ":" s))%nat eqn:E; [done|].
  apply Nat.ltb_ge in E. lia.
Qed.

Lemma parse_model_no_flags loc :
  Py.count ":" loc = 0 →
  parse_model loc =
    Ok {| md_path := loc; md_options := []; md_name := Path.basename loc |}.
Proof. intros H. unfold parse_model. by rewrite split_no_sep. Qed.

Lemma parse_model_flags loc flags :
  Py.count ":" loc = 0 → Py.count ":" flags = 0 →
  parse_model (loc +:+ ":" +:+ flags) =
    Ok {| md_path := loc;
          md_options := Py.split "," flags;
          md_name := Py.join "." (Path.basename loc :: Py.split "," flags) |}.
Proof.
  intros Hl Hf. unfold parse_model.
  change (loc +:+ ":" +:+ flags) with (loc +:+ String ":" flags).
  rewrite split_app, !split_no_sep by done. done.
Qed.

(** C5.  A model reference with one separator [:] parses to the location
    before it, the comma-split flags after it, and the display name made of
    the base name of the location and the flags joined by [.]; without a
    separator the flags are empty and the display name is the base name;
    any string with more than one separator is rejected with the
    configuration error.  The two examples of the specification are
    instances. *)
Theorem parse_model_spec (loc flags : string)
    (Hloc : Py.count ":" loc = 0) (Hflags : Py.count ":" flags = 0) :
  parse_model loc =
    Ok {| md_path := loc; md_options := []; md_name := Path.basename loc |}
  ∧ parse_model (loc +:+ ":" +:+ flags) =
      Ok {| md_path := loc;
            md_options := Py.split "," flags;
            md_name := Py.join "." (Path.basename loc :: Py.split "," flags) |}
  ∧ (∀ rest, parse_model (loc +:+ ":" +:+ flags +:+ ":" +:+ rest) =
             Err (ValueError multiple_sep_msg))
  ∧ (∀ s, 1 < Py.count ":" s →
          parse_model s = Err (ValueError multiple_sep_msg))
  ∧ parse_model "models/a:flag1,flag2" =
      Ok {| md_path := "models/a";
            md_options := ["flag1"; "flag2"];
            md_name := "a.flag1.flag2" |}
  ∧ parse_model "models/a:flag1:flag2" =
      Err (ValueError multiple_sep_msg).
Proof.
  split_and!.
  - by apply parse_model_no_flags.
  - by apply parse_model_flags.
  - intros rest. apply parse_model_many_seps.
    rewrite !count_app. simpl. lia.
  - apply parse_model_many_seps.
  - reflexivity.
  - reflexivity.
Qed.

Lemma parse_model_spec_witness :
  parse_model "models/a:flag1,flag2" =
    Ok {| md_path := "models/a";
          md_options := ["flag1"; "flag2"];
          md_name := "a.flag1.flag2" |}.
Proof.
  exact (proj1 (proj2 (parse_model_spec "models/a" "flag1,flag2"
                         eq_refl eq_refl))).
Defined.

(** C10.  A model reference that ends with the separator has the flags
    [['']], one empty string, and a display name that is the base name of
    the location followed by a dot. *)
Theorem parse_model_trailing_sep (loc : string)
    (Hloc : Py.count ":" loc = 0) :
  parse_model (loc +:+ ":") =
    Ok {| md_path := loc;
          md_options := [""];
          md_name := Path.basename loc +:+ "." |}.
Proof.
  pose proof (parse_model_flags loc "" Hloc eq_refl) as H.
  simpl in H. exact H.
Qed.

Lemma parse_model_trailing_sep_witness :
  parse_model "models/a:" =
    Ok {| md_path := "models/a"; md_options := [""]; md_name := "a." |}.
Proof. exact (parse_model_trailing_sep "models/a" eq_refl). Defined.

(** ** The run monad *)

Lemma bindM_Ok {A B} (m : M A) (k : A → M B) s b s' :
  bindM m k s = (Ok b, s') →
  ∃ a s1, m s = (Ok a, s1) ∧ k a s1 = (Ok b, s').
Proof.
  unfold bindM. destruct (m s) as [[a|e] s1]; [eauto|done].
Qed.

Lemma keeps_logs_ret {A} (a : A) : keeps_logs (retM a).
Proof. by intros s. Qed.

Lemma keeps_logs_raise {A} e : keeps_logs (@raiseM A e).
Proof. by intros s. Qed.

Lemma keeps_logs_liftR {A} (r : result A) : keeps_logs (liftR r).
Proof. by destruct r; intros s. Qed.

Lemma keeps_logs_on_fs {A} (f : FS → result (FS * A)) : keeps_logs (on_fs f).
Proof.
  intros s. unfold on_fs. by destruct (f (rs_fs s)) as [[fs a]|e].
Qed.

Lemma keeps_logs_bind {A B} (m : M A) (k : A → M B) :
  keeps_logs m → (∀ a, keeps_logs (k a)) → keeps_logs (bindM m k).
Proof.
  intros Hm Hk s. unfold bindM. specialize (Hm s).
  destruct (m s) as [[a|e] s1]; simpl in *; [|done].
  destruct (Hk a s1) as [-> ->]. done.
Qed.

Create HintDb logs.
#[local] Hint Resolve keeps_logs_ret keeps_logs_raise keeps_logs_liftR
  keeps_logs_on_fs : logs.

Ltac keeps_logs_step :=
  first [ apply keeps_logs_ret | apply keeps_logs_raise
        | apply keeps_logs_liftR | apply keeps_logs_on_fs
        | apply keeps_logs_bind; [|intros ?] ].

Lemma keeps_logs_save_channels args idx name planes :
  ∀ idx_c e, keeps_logs (save_channels args idx name idx_c planes e).
Proof.
  induction planes as [|ar rest IH]; intros idx_c e; simpl.
  - apply keeps_logs_ret.
  - apply keeps_logs_bind; [apply keeps_logs_on_fs|]. intros p. apply IH.
Qed.

Lemma keeps_logs_predict_one ext args metric_fn idx signal target p vars :
  keeps_logs (predict_one ext args metric_fn idx signal target p vars).
Proof.
  destruct vars as [cache e]. unfold predict_one.
  apply keeps_logs_bind; [apply keeps_logs_liftR|]. intros [model model_def].
  do 3 (apply keeps_logs_bind; [apply keeps_logs_liftR|]; intros ?).
  apply keeps_logs_bind; [|intros ?; apply keeps_logs_ret].
  destruct a0; [destruct (negb _)|]; auto with logs.
  apply keeps_logs_save_channels.
Qed.

Lemma keeps_logs_for_models ext args metric_fn idx signal target ps :
  ∀ vars, keeps_logs (for_models ext args metric_fn idx signal target ps vars).
Proof.
  induction ps as [|p rest IH]; intros vars; simpl.
  - apply keeps_logs_ret.
  - apply keeps_logs_bind; [apply keeps_logs_predict_one|]. intros v. apply IH.
Qed.

Lemma keeps_logs_process_sample ext args metric_fn ds index_name idx cache :
  keeps_logs (process_sample ext args metric_fn ds index_name idx cache).
Proof.
  unfold process_sample.
  do 2 (apply keeps_logs_bind; [apply keeps_logs_liftR|]; intros ?).
  apply keeps_logs_bind; [|intros ?].
  { destruct (negb _); repeat keeps_logs_step. }
  apply keeps_logs_bind; [|intros ?].
  { match goal with
    | |- keeps_logs (match ?t with _ => _ end) => destruct t
    end; [destruct (negb _)|]; repeat keeps_logs_step. }
  apply keeps_logs_for_models.
Qed.

(** ** The loop over the samples *)

Lemma liftR_Ok {A} (r : result A) s a s' :
  liftR r s = (Ok a, s') → r = Ok a ∧ s' = s.
Proof. destruct r; simpl; unfold retM, raiseM; naive_solver. Qed.

Lemma keeps_logs_eq {A} (m : M A) s r s' :
  keeps_logs m → m s = (r, s') →
  rs_processing s' = rs_processing s ∧ rs_flushes s' = rs_flushes s.
Proof. intros H E. specialize (H s). by rewrite E in H. Qed.

Lemma flush_Ok args index_name count entries s u s' :
  flush args index_name count entries s = (Ok u, s') →
  rs_processing s' = rs_processing s
  ∧ rs_flushes s' = rs_flushes s ++ [(count, entries)].
Proof.
  unfold flush. intros (df & s1 & H1 & H)%bindM_Ok.
  apply bindM_Ok in H as ([] & s2 & H2 & H3).
  apply liftR_Ok in H1 as [_ ->].
  unfold log_flush in H2. simplify_eq.
  unfold on_fs_ in H3.
  by destruct (keeps_logs_eq _ _ _ _ (keeps_logs_on_fs _) H3) as [-> ->].
Qed.

Lemma flush_counts_cons indices count idx rest :
  flush_counts indices count (idx :: rest) =
    (if flush_due indices count idx then [count] else [])
    ++ flush_counts indices (S count) rest.
Proof. reflexivity. Qed.

(** What a completed loop leaves in the two records: the samples in the
    order of [todo], numbered from [count]; a call of [save_csv] at each
    count that [flush_due] selects, with all rows gathered up to then. *)
Lemma sample_loop_Ok ext args metric_fn ds index_name indices todo :
  ∀ count vars s v s',
    sample_loop ext args metric_fn ds index_name indices count todo vars s
      = (Ok v, s') →
    rs_processing s' = rs_processing s ++ zip todo (seq count (length todo))
    ∧ vars.2 `prefix_of` v.2
    ∧ ∃ new, rs_flushes s' = rs_flushes s ++ new
        ∧ new.*1 = flush_counts indices count todo
        ∧ Forall (λ cb : nat * list entry,
                    length cb.2 + count = length vars.2 + S cb.1
                    ∧ cb.2 `prefix_of` v.2) new.
Proof.
  induction todo as [|idx rest IH]; intros count [cache entries] s v s' H.
  - simpl in H. unfold retM in H. simplify_eq. simpl.
    rewrite !app_nil_r. split_and!; [done..|].
    exists []. by rewrite app_nil_r.
  - simpl in H.
    apply bindM_Ok in H as ([] & s1 & H1 & H).
    apply bindM_Ok in H as ([cache' e] & s2 & H2 & H).
    apply bindM_Ok in H as ([] & s3 & H3 & H).
    apply IH in H as (Hp & Hpre & new & Hf & Hc & Hb).
    rewrite flush_counts_cons.
    unfold log_processing in H1. simplify_eq. simpl in *.
    destruct (keeps_logs_eq _ _ _ _
      (keeps_logs_process_sample _ _ _ _ _ _ _) H2) as [Hp2 Hf2].
    simpl in *.
    assert (entries `prefix_of` v.2) as Hentries.
    { etrans; [|exact Hpre]. by apply prefix_app_r. }
    assert (Forall (λ cb : nat * list entry,
                      length cb.2 + count = length entries + S cb.1
                      ∧ cb.2 `prefix_of` v.2) new) as Hb'.
    { eapply Forall_impl; [exact Hb|]. intros [c b] [Hl ?]. simpl in *.
      rewrite length_app in Hl. simpl in Hl. split; [lia|done]. }
    destruct (flush_due indices count idx) eqn:Hdue.
    + apply flush_Ok in H3 as [Hp3 Hf3].
      rewrite Hp, Hp3, Hp2, <- app_assoc. split_and!; [done..|].
      exists ((count, entries ++ [e]) :: new). split_and!.
      * rewrite Hf, Hf3, Hf2. by rewrite <- app_assoc.
      * rewrite fmap_cons, Hc. done.
      * constructor; [|done]. simpl. rewrite length_app. simpl.
        split; [lia|done].
    + unfold retM in H3. simplify_eq.
      rewrite Hp, Hp2, <- app_assoc. split_and!; [done..|].
      exists new. split_and!; [by rewrite Hf, Hf2|done..].
Qed.

Lemma fst_zip_seq {A} (l : list A) n : (zip l (seq n (length l))).*1 = l.
Proof. apply fst_zip. by rewrite length_seq. Qed.

(** What a completed run leaves in the two records. *)
Lemma main_Ok ext fuel args s s' :
  main ext fuel args s = (Ok tt, s') →
  ∃ ds, get_dataset ext args (rs_fs s) = Ok ds
    ∧ (rs_processing s').*1
        = (rs_processing s).*1 ++ selected_indices args ds
    ∧ ∃ new, rs_flushes s' = rs_flushes s ++ new
        ∧ new.*1 = flush_counts (selected_indices args ds) 1
                     (selected_indices args ds)
        ∧ Forall (λ cb : nat * list entry, length cb.2 = cb.1) new.
Proof.
  unfold main. intros H.
  apply bindM_Ok in H as (metric_fn & s1 & H1 & H).
  apply liftR_Ok in H1 as [_ ?]. subst s1.
  apply bindM_Ok in H as (fs & s2 & H1 & H).
  unfold get_fs in H1. injection H1 as Hfs Hs. subst fs s2.
  apply bindM_Ok in H as (ds & s3 & H1 & H).
  apply liftR_Ok in H1 as [Hds ?]. subst s3.
  apply bindM_Ok in H as ([] & s4 & H1 & H).
  apply bindM_Ok in H as (v & s5 & H2 & H).
  assert (rs_processing s4 = rs_processing s ∧ rs_flushes s4 = rs_flushes s)
    as [Hp1 Hf1].
  { destruct (negb _).
    - unfold on_fs_ in H1. exact (keeps_logs_eq _ _ _ _ (keeps_logs_on_fs _) H1).
    - unfold retM in H1. by simplify_eq. }
  unfold on_fs_ in H.
  destruct (keeps_logs_eq _ _ _ _ (keeps_logs_on_fs _) H) as [Hp3 Hf3].
  apply sample_loop_Ok in H2 as (Hp & _ & new & Hf & Hc & Hb).
  exists ds. split; [done|]. split.
  - rewrite Hp3, Hp, Hp1, fmap_app. by rewrite fst_zip_seq.
  - exists new. split_and!; [by rewrite Hf3, Hf, Hf1|done|].
    simpl in *. eapply Forall_impl; [exact Hb|]. intros [c b] [Hl _].
    simpl in *. lia.
Qed.

(** ** Choice of the indices *)

Lemma selected_indices_cap args ds :
  (0 < n_images args)%Z →
  selected_indices args ds
    = take (Z.to_nat (n_images args)) (index_order args ds).
Proof.
  intros H. unfold selected_indices, slice_to, index_order.
  destruct (0 <? n_images args)%Z eqn:E; [|lia].
  destruct (0 <=? n_images args)%Z eqn:E'; [done|lia].
Qed.

Lemma selected_indices_all args ds :
  (n_images args ≤ 0)%Z → selected_indices args ds = index_order args ds.
Proof.
  intros H. unfold selected_indices, slice_to, index_order.
  destruct (0 <? n_images args)%Z eqn:E; [lia|done].
Qed.

(** C7.  In a completed run the samples processed are, in this order, the
    indices chosen before the loop starts; with a positive cap these are the
    first that many items of the index sequence, in its own order, and with
    a cap that is not positive they are the whole sequence. *)
Theorem processed_indices_prefix ext fuel args s s'
    (Hrun : main ext fuel args s = (Ok tt, s')) :
  ∃ ds, get_dataset ext args (rs_fs s) = Ok ds
    ∧ (rs_processing s').*1
        = (rs_processing s).*1 ++ selected_indices args ds
    ∧ ((0 < n_images args)%Z →
         selected_indices args ds
           = take (Z.to_nat (n_images args)) (index_order args ds))
    ∧ ((n_images args ≤ 0)%Z →
         selected_indices args ds = index_order args ds).
Proof.
  apply main_Ok in Hrun as (ds & Hds & Hp & _).
  exists ds. split_and!; [done..| |].
  - apply selected_indices_cap.
  - apply selected_indices_all.
Qed.

Lemma processed_indices_prefix_witness :
  ∃ ds, get_dataset Demo.ext Demo.args (rs_fs Demo.start) = Ok ds
    ∧ (rs_processing (main Demo.ext 1 Demo.args Demo.start).2).*1
        = (rs_processing Demo.start).*1 ++ selected_indices Demo.args ds
    ∧ ((0 < n_images Demo.args)%Z →
         selected_indices Demo.args ds
           = take (Z.to_nat (n_images Demo.args))
                  (index_order Demo.args ds))
    ∧ ((n_images Demo.args ≤ 0)%Z →
         selected_indices Demo.args ds = index_order Demo.args ds).
Proof.
  apply (processed_indices_prefix Demo.ext 1 Demo.args Demo.start).
  vm_compute. reflexivity.
Defined.

(** The example of the specification: order [3,1,4,1,5], cap 3. *)
Example processed_indices_demo :
  index_order Demo.args Demo.ds = [3; 1; 4; 1; 5]%Z
  ∧ n_images Demo.args = 3%Z
  ∧ (rs_processing (main Demo.ext 1 Demo.args Demo.start).2).*1
      = [3; 1; 4]%Z.
Proof. vm_compute. done. Qed.

(** ** Source of the samples *)

Lemma get_dataset_ambiguous ext args fs :
  ambiguous_source args →
  get_dataset ext args fs
    = Err (ValueError "Must specify one input source type").
Proof.
  unfold get_dataset.
  intros [[[d ->] [p ->]]|[-> ->]]; reflexivity.
Qed.

(** C8.  With both a dataset name and a path, or with neither, [get_dataset]
    raises the configuration error; the run then ends with an error in the
    state it started in, with no sample processed, no call of [save_csv] and
    nothing written, and this error is the one of [get_dataset] whenever the
    metric, which is resolved first, resolves. *)
Theorem dataset_source_exclusive ext args (H : ambiguous_source args) :
  (∀ fs, get_dataset ext args fs
         = Err (ValueError "Must specify one input source type"))
  ∧ (∀ fuel s, ∃ e,
       main ext fuel args s = (Err e, s)
       ∧ (∀ m, str_to_object ext (metric args) = Ok m →
               e = ValueError "Must specify one input source type")).
Proof.
  split; [intros fs; by apply get_dataset_ambiguous|].
  intros fuel s. unfold main, bindM at 1.
  destruct (str_to_object ext (metric args)) as [m|e] eqn:E; simpl.
  - exists (ValueError "Must specify one input source type").
    split; [|done].
    unfold retM, bindM at 1, get_fs, bindM at 1.
    by rewrite get_dataset_ambiguous.
  - exists e. split; [done|]. intros m [=].
Qed.

Lemma dataset_source_exclusive_witness :
  (∀ fs, get_dataset Demo.ext Demo.both_sources fs
         = Err (ValueError "Must specify one input source type"))
  ∧ (∀ fuel s, ∃ e,
       main Demo.ext fuel Demo.both_sources s = (Err e, s)
       ∧ (∀ m, str_to_object Demo.ext (metric Demo.both_sources) = Ok m →
               e = ValueError "Must specify one input source type")).
Proof.
  apply (dataset_source_exclusive Demo.ext Demo.both_sources).
  left. split; eexists; reflexivity.
Defined.

(** ** Calls of [save_csv] during a run *)

Lemma flush_counts_scheduled seen todo :
  NoDup (seen ++ todo) →
  flush_counts (seen ++ todo) (S (length seen)) todo
    = filter (λ c, c mod 8 = 0 ∨ c = length (seen ++ todo))
             (seq (S (length seen)) (length todo)).
Proof.
  revert seen. induction todo as [|idx rest IH]; intros seen Hnd; [done|].
  rewrite flush_counts_cons.
  replace (seen ++ idx :: rest) with ((seen ++ [idx]) ++ rest) in *
    by by rewrite <- app_assoc.
  specialize (IH (seen ++ [idx]) Hnd).
  rewrite length_app in IH at 1 2. simpl in IH.
  rewrite Nat.add_1_r in IH. rewrite IH. clear IH.
  cbn [length seq]. rewrite filter_cons.
  assert (flush_due ((seen ++ [idx]) ++ rest) (S (length seen)) idx = true
          ↔ S (length seen) mod 8 = 0
            ∨ S (length seen) = length ((seen ++ [idx]) ++ rest)) as Hdue.
  { unfold flush_due. rewrite orb_true_iff, Nat.eqb_eq, bool_decide_eq_true.
    apply or_iff_compat_l. rewrite !length_app. simpl.
    rewrite last_app. destruct (last rest) as [x|] eqn:El.
    - apply last_Some in El as [rest' ->]. rewrite length_app. simpl.
      split; [|lia]. intros [= ->].
      apply NoDup_app in Hnd as (_ & Hnd & _).
      exfalso. apply (Hnd x); set_solver.
    - apply last_None in El as ->. rewrite last_snoc. simpl.
      split; [lia|done]. }
  destruct (flush_due _ _ _) eqn:E.
  - rewrite decide_True by by apply Hdue. done.
  - rewrite decide_False; [done|]. intros ?%Hdue. congruence.
Qed.

(** In a completed run over indices without repetition [save_csv] is called
    at the multiples of eight and at the last sample, each time with as many
    rows as samples are done. *)
Lemma flushes_scheduled ext fuel args s s' :
  main ext fuel args s = (Ok tt, s') →
  ∃ ds new,
    get_dataset ext args (rs_fs s) = Ok ds
    ∧ rs_flushes s' = rs_flushes s ++ new
    ∧ Forall (λ cb : nat * list entry, length cb.2 = cb.1) new
    ∧ (NoDup (selected_indices args ds) →
       new.*1 = scheduled_counts (length (selected_indices args ds))).
Proof.
  intros (ds & Hds & _ & new & Hf & Hc & Hb)%main_Ok.
  exists ds, new. split_and!; [done..|].
  intros Hnd. rewrite Hc.
  exact (flush_counts_scheduled [] (selected_indices args ds) Hnd).
Qed.

(** The schedule of the specification for ten samples. *)
Example scheduled_counts_10 : scheduled_counts 10 = [8; 10].
Proof. reflexivity. Qed.

(** C3.  Over the indices [5, 1, 5] the run calls [save_csv] after the first
    sample and after the third: the test of line 213 compares the index with
    the last index, and the first sample carries the same index as the last
    one.  The schedule of the specification has one call, after the third. *)
Theorem flush_on_repeated_last_index :
  let run := main Demo.ext 1 (Demo.with_indices [5; 1; 5]%Z) Demo.start in
  run.1 = Ok tt
  ∧ rs_processing run.2 = [(5%Z, 1); (1%Z, 2); (5%Z, 3)]
  ∧ (rs_flushes run.2).*1 = [1; 3]
  ∧ scheduled_counts 3 = [3].
Proof. vm_compute. done. Qed.

(** ** Paths *)

Lemma string_app_eq_nil (a b : string) : a +:+ b = "" → a = "" ∧ b = "".
Proof. destruct a; [by rewrite string_app_nil_l|done]. Qed.

Lemma startswith_sep_app a b :
  a ≠ "" → Path.startswith_sep (a +:+ b) = Path.startswith_sep a.
Proof. by destruct a. Qed.


Lemma endswith_sep_app a b :
  b ≠ "" → Path.endswith_sep (a +:+ b) = Path.endswith_sep b.
Proof.
  intros Hb. induction a as [|c r IH]; [done|].
  rewrite string_app_cons. simpl. rewrite IH.
  destruct (r +:+ b) eqn:E; [|done].
  by apply string_app_eq_nil in E as [_ ?].
Qed.


(** [join] with a relative second part. *)
Lemma join_relative a b :
  Path.startswith_sep b = false →
  Path.join a b =
    if bool_decide (a = "") || Path.endswith_sep a then a +:+ b
    else a +:+ "/" +:+ b.
Proof. intros H. unfold Path.join. by rewrite H. Qed.

Lemma join_ne_nil a b : b ≠ "" → Path.join a b ≠ "".
Proof.
  intros Hb. unfold Path.join. repeat case_match; [done|..];
    intros [_ ?]%string_app_eq_nil; [done|].
  by destruct b.
Qed.

Lemma join_endswith a b :
  b ≠ "" → Path.endswith_sep (Path.join a b) = Path.endswith_sep b.
Proof.
  intros Hb. unfold Path.join. repeat case_match; [done|..].
  - by apply endswith_sep_app.
  - rewrite endswith_sep_app by by destruct b.
    change ("/" +:+ b) with (String Path.sep "" +:+ b).
    by apply endswith_sep_app.
Qed.





Section normpath_facts.
Variable initial : nat.


Lemma norm_step_empty st : Path.norm_step initial st "" = st.
Proof. reflexivity. Qed.




End normpath_facts.









(** ** [save_tif] *)

Lemma exists_iff fs p : Os.exists_ fs p = true ↔ p ∈ paths fs.
Proof.
  unfold Os.exists_, paths.
  rewrite orb_true_iff, !bool_decide_eq_true, elem_of_union, elem_of_dom.
  done.
Qed.




(** The directory is created once; a second image finds it. *)
Example save_tif_twice :
  ∃ fs1 fs2,
    save_tif "7_signal.tif" [] "out" Demo.fs = Ok (fs1, "tifs/7_signal.tif")
    ∧ save_tif "7_target.tif" [] "out" fs1 = Ok (fs2, "tifs/7_target.tif")
    ∧ dirs fs1 = {[ "out"; "out/tifs" ]}
    ∧ dirs fs2 = dirs fs1
    ∧ dom (files fs2) = {[ "out/tifs/7_signal.tif"; "out/tifs/7_target.tif" ]}.
Proof.
  eexists _, _. split; [reflexivity|]. split; [reflexivity|].
  by vm_compute.
Qed.

(** ** Decimal numerals *)

Lemma all_digits_of_uint d : Py.all_digits (NilEmpty.string_of_uint d) = true.
Proof. induction d; simpl; [done|by rewrite ?IHd..]. Qed.

Lemma all_digits_app a b :
  Py.all_digits (a +:+ b) = Py.all_digits a && Py.all_digits b.
Proof.
  induction a as [|c r IH]; [done|].
  rewrite string_app_cons. simpl. by rewrite IH, andb_assoc.
Qed.

Lemma all_digits_no_dot s : Py.all_digits s = true → Py.count "." s = 0.
Proof.
  induction s as [|c r IH]; simpl; [done|].
  intros [Hc Hr]%andb_true_iff. rewrite IH by done.
  destruct (Ascii.eqb c ".") eqn:E; [|done].
  apply Ascii.eqb_eq in E as ->. done.
Qed.

Lemma to_int_nonneg n :
  (0 ≤ n)%Z → ∃ d, Z.to_int n = Decimal.Pos d ∧ d ≠ Decimal.Nil.
Proof.
  destruct n as [|p|p]; [| |lia]; intros _; simpl.
  - by eexists.
  - eexists. split; [done|]. apply DecimalPos.Unsigned.to_uint_nonnil.
Qed.

Lemma str_nonneg n :
  (0 ≤ n)%Z →
  Py.isdigit (Py.str n) = true ∧ Py.int (Py.str n) = Some n
  ∧ Py.count "." (Py.str n) = 0.
Proof.
  intros Hn. destruct (to_int_nonneg n Hn) as (d & Hd & Hne).
  pose proof (DecimalZ.of_to n) as Hof. rewrite Hd in Hof. simpl in Hof.
  unfold Py.str. rewrite Hd. simpl.
  pose proof (all_digits_of_uint d) as Hall.
  pose proof (NilEmpty.usu d) as Husu.
  destruct (NilEmpty.string_of_uint d) as [|c r] eqn:E.
  { by destruct d. }
  split_and!.
  - done.
  - unfold Py.int. simpl in Hall. apply andb_true_iff in Hall as [Hc _].
    destruct (Ascii.eqb c "-") eqn:Ec.
    { apply Ascii.eqb_eq in Ec as ->. done. }
    rewrite Husu. simpl. by rewrite Hof.
  - by apply all_digits_no_dot.
Qed.

(** ** [save_args_as_json] *)

Lemma last2_snoc2 {A} (l : list A) x y : Py.last2 (l ++ [x; y]) = Some x.
Proof. unfold Py.last2. by rewrite reverse_app. Qed.

Lemma split_app_last sep a b :
  Py.count sep b = 0 →
  ∃ l z, Py.split sep (a +:+ b) = l ++ [z +:+ b].
Proof.
  intros Hb. induction a as [|c r (l & z & IH)].
  - exists [], "". by rewrite string_app_nil_l, split_no_sep.
  - rewrite string_app_cons. simpl. rewrite IH.
    destruct (Ascii.eqb c sep).
    + by exists ("" :: l), z.
    + destruct l as [|q l']; simpl.
      * by exists [], (String c z).
      * by exists (String c q :: l'), z.
Qed.

Lemma join_relative_prefix a b :
  Path.startswith_sep b = false → ∃ pre, Path.join a b = pre +:+ b.
Proof.
  intros H. rewrite join_relative by done. case_match; [by eexists|].
  exists (a +:+ "/"). by rewrite string_app_assoc.
Qed.

(** The piece before [.json] in the default name is not a number. *)
Lemma default_snapshot_number dir :
  ∃ number, Py.last2 (Py.split "." (default_snapshot dir)) = Some number
            ∧ Py.isdigit number = false.
Proof.
  unfold default_snapshot.
  destruct (join_relative_prefix dir "predict_options.json" eq_refl)
    as [pre ->].
  change "predict_options.json" with ("predict_options" +:+ String "." "json").
  rewrite <- string_app_assoc, split_app.
  destruct (split_app_last "." pre "predict_options" eq_refl)
    as (l & z & ->).
  rewrite (split_no_sep _ "json") by done. rewrite <- app_assoc.
  cbn [app]. rewrite last2_snoc2. eexists. split; [done|].
  unfold Py.isdigit. destruct (z +:+ "predict_options") eqn:E; [done|].
  rewrite <- E, all_digits_app. apply andb_false_r.
Qed.

(** The piece before [.json] in a numbered name is the number. *)
Lemma numbered_snapshot_number dir n :
  (0 ≤ n)%Z →
  Py.last2 (Py.split "." (numbered_snapshot dir n)) = Some (Py.str n).
Proof.
  intros Hn. destruct (str_nonneg n Hn) as (_ & _ & Hdot).
  unfold numbered_snapshot.
  destruct (join_relative_prefix dir
              (Py.join "." ["predict_options"; Py.str n; "json"]) eq_refl)
    as [pre ->].
  change (Py.join "." ["predict_options"; Py.str n; "json"])
    with ("predict_options" +:+ String "." (Py.str n +:+ String "." "json")).
  rewrite <- string_app_assoc, !split_app.
  rewrite (split_no_sep _ "json"), (split_no_sep _ (Py.str n)) by done.
  cbn [app]. by rewrite last2_snoc2.
Qed.

Lemma numbered_snapshot_inj dir n m :
  (0 ≤ n)%Z → (0 ≤ m)%Z →
  numbered_snapshot dir n = numbered_snapshot dir m → n = m.
Proof.
  intros Hn Hm E.
  pose proof (numbered_snapshot_number dir n Hn) as H1.
  rewrite E, numbered_snapshot_number in H1 by done.
  destruct (str_nonneg n Hn) as (_ & In & _).
  destruct (str_nonneg m Hm) as (_ & Im & _).
  congruence.
Qed.

Lemma free_json_path_free fuel fs dir p :
  Os.exists_ fs p = false → free_json_path fuel fs dir p = Ok p.
Proof. intros H. destruct fuel; simpl; by rewrite H. Qed.

Lemma free_json_path_default fuel fs dir :
  Os.exists_ fs (default_snapshot dir) = true →
  free_json_path (S fuel) fs dir (default_snapshot dir)
    = free_json_path fuel fs dir (numbered_snapshot dir 0).
Proof.
  intros H. simpl. rewrite H.
  destruct (default_snapshot_number dir) as (number & -> & ->). done.
Qed.

Lemma free_json_path_numbered fuel fs dir n :
  (0 ≤ n)%Z → Os.exists_ fs (numbered_snapshot dir n) = true →
  free_json_path (S fuel) fs dir (numbered_snapshot dir n)
    = free_json_path fuel fs dir (numbered_snapshot dir (n + 1)).
Proof.
  intros Hn H. simpl. rewrite H, numbered_snapshot_number by done.
  destruct (str_nonneg n Hn) as (-> & -> & _). done.
Qed.

(** From a numbered name on, the loop stops at the first numbered name that
    does not exist, provided the turns cover a set [X] that holds all the
    numbered names still ahead that exist. *)
Lemma free_json_path_search fs dir fuel :
  ∀ n (X : gset string),
    (0 ≤ n)%Z → size X ≤ fuel →
    (∀ m, (n ≤ m)%Z → numbered_snapshot dir m ∈ paths fs →
          numbered_snapshot dir m ∈ X) →
    ∃ m, (n ≤ m)%Z
      ∧ free_json_path fuel fs dir (numbered_snapshot dir n)
          = Ok (numbered_snapshot dir m)
      ∧ Os.exists_ fs (numbered_snapshot dir m) = false
      ∧ ∀ j, (n ≤ j < m)%Z →
             Os.exists_ fs (numbered_snapshot dir j) = true.
Proof.
  induction fuel as [|fuel IH]; intros n X Hn Hsize HX.
  - exists n. apply Nat.le_0_r, size_empty_inv in Hsize.
    assert (Os.exists_ fs (numbered_snapshot dir n) = false) as Hfree.
    { apply not_true_is_false. intros H%exists_iff.
      apply HX in H; [|lia]. set_solver. }
    split_and!; [lia|by apply free_json_path_free|done|lia].
  - destruct (Os.exists_ fs (numbered_snapshot dir n)) eqn:E.
    + rewrite free_json_path_numbered by done.
      pose proof E as Hin%exists_iff. apply HX in Hin; [|lia].
      destruct (IH (n + 1)%Z (X ∖ {[numbered_snapshot dir n]}))
        as (m & Hm & Hr & Hfree & Hbefore).
      * lia.
      * rewrite size_difference, size_singleton; [lia|].
        by apply singleton_subseteq_l.
      * intros j Hj Hjin. apply elem_of_difference. split; [apply HX; [lia|done]|].
        rewrite elem_of_singleton.
        intros ?%numbered_snapshot_inj; lia.
      * exists m. split_and!; [lia|done..|].
        intros j Hj. destruct (decide (j = n)) as [->|]; [done|].
        apply Hbefore. lia.
    + exists n. split_and!; [lia|by apply free_json_path_free|done|lia].
Qed.

(** With enough turns the loop ends at the first name that does not exist. *)
Lemma free_json_path_enough fs dir fuel :
  enough_fuel fs ≤ fuel →
  ∃ p, free_json_path fuel fs dir (default_snapshot dir) = Ok p
       ∧ first_free_snapshot dir fs p.
Proof.
  unfold enough_fuel. intros Hfuel.
  destruct (Os.exists_ fs (default_snapshot dir)) eqn:Hdef.
  - destruct fuel as [|fuel]; [lia|].
    rewrite free_json_path_default by done.
    destruct (free_json_path_search fs dir fuel 0 (paths fs))
      as (m & Hm & Hr & Hfree & Hbefore); [lia|lia|done|].
    exists (numbered_snapshot dir m). split; [done|].
    split; [done|]. right. split; [done|]. by exists m.
  - exists (default_snapshot dir).
    split; [by apply free_json_path_free|]. split; [done|by left].
Qed.

Lemma save_args_as_json_once dir args fs fuel :
  enough_fuel fs ≤ fuel →
  ∃ path_json,
    save_args_as_json fuel dir args fs
      = Ok (Os.write fs path_json (Json args))
    ∧ first_free_snapshot dir fs path_json
    ∧ ∀ p c, files fs !! p = Some c →
             files (Os.write fs path_json (Json args)) !! p = Some c.
Proof.
  intros Hfuel.
  destruct (free_json_path_enough fs dir fuel Hfuel) as (p & Hp & Hfree).
  exists p. unfold save_args_as_json. fold (default_snapshot dir).
  rewrite Hp. simpl. split_and!; [done..|].
  intros q c Hq. rewrite lookup_insert_ne; [done|]. intros <-.
  destruct Hfree as [Hfree _]. apply not_true_iff_false in Hfree.
  apply Hfree, exists_iff, elem_of_union_r, elem_of_dom. by eexists.
Qed.



(** Three snapshots in one directory. *)
Example snapshots_demo :
  ∃ fs1 fs2 fs3,
    save_args_as_json 1 "out" Demo.args Demo.fs = Ok fs1
    ∧ save_args_as_json 2 "out" Demo.args fs1 = Ok fs2
    ∧ save_args_as_json 3 "out" Demo.args fs2 = Ok fs3
    ∧ dom (files fs1) = {[ "out/predict_options.json" ]}
    ∧ dom (files fs2)
        = {[ "out/predict_options.json"; "out/predict_options.0.json" ]}
    ∧ dom (files fs3)
        = {[ "out/predict_options.json"; "out/predict_options.0.json";
             "out/predict_options.1.json" ]}.
Proof.
  eexists _, _, _. do 3 (split; [reflexivity|]). by vm_compute.
Qed.

(** ** Frames *)

Section union_facts.
Context {A : Type} `{EqDecision A} (le : relation A).
Context `{!RelDecision le, !PartialOrder le, !Total le}.




Lemma elem_of_msort x l : x ∈ merge_sort le l ↔ x ∈ l.
Proof. by rewrite merge_sort_Permutation. Qed.

Lemma NoDup_msort l : NoDup (merge_sort le l) ↔ NoDup l.
Proof. by rewrite merge_sort_Permutation. Qed.


Lemma elem_of_pd_union x a b : x ∈ Pd.union le a b ↔ x ∈ a ∨ x ∈ b.
Proof.
  unfold Pd.union. repeat case_decide; subst.
  - tauto.
  - rewrite elem_of_nil. tauto.
  - rewrite elem_of_nil. tauto.
  - by rewrite elem_of_msort, elem_of_remove_dups, elem_of_app.
Qed.

Lemma NoDup_pd_union a b : NoDup a → NoDup b → NoDup (Pd.union le a b).
Proof.
  intros Ha Hb. unfold Pd.union. repeat case_decide; [done..|].
  apply NoDup_msort, NoDup_remove_dups.
Qed.



End union_facts.

Lemma get_loc_Some {A} `{EqDecision A} (x : A) l k :
  Pd.get_loc x l = Some k → l !! k = Some x.
Proof.
  revert k. induction l as [|y l IH]; intros k; simpl; [done|].
  case_decide; [by intros [= <-]; subst|].
  destruct (Pd.get_loc x l) as [k'|]; simpl; [|done].
  intros [= <-]. by apply IH.
Qed.

Lemma get_loc_None {A} `{EqDecision A} (x : A) l :
  Pd.get_loc x l = None ↔ x ∉ l.
Proof.
  induction l as [|y l IH]; simpl.
  - split; [intros _; apply not_elem_of_nil|done].
  - rewrite not_elem_of_cons. case_decide as Hy.
    + split; [done|]. by intros [? _].
    + destruct (Pd.get_loc x l); simpl.
      * split; [done|]. intros [_ Hx]. by apply IH in Hx.
      * split; [|done]. intros _. split; [done|]. by apply IH.
Qed.

Lemma get_loc_elem_of {A} `{EqDecision A} (x : A) l :
  x ∈ l → ∃ k, Pd.get_loc x l = Some k.
Proof.
  intros Hx. destruct (Pd.get_loc x l) eqn:E; [by eexists|].
  by apply get_loc_None in E.
Qed.

Lemma cell_outside_index df i c : i ∉ index df → Pd.cell df i c = None.
Proof. intros H%get_loc_None. unfold Pd.cell. by rewrite H. Qed.

Lemma cell_outside_columns df i c : c ∉ columns df → Pd.cell df i c = None.
Proof.
  intros H%get_loc_None. unfold Pd.cell. rewrite H.
  by destruct (Pd.get_loc i (index df)).
Qed.

(** The cells of a frame given by a function are its values, on the labels
    of the frame. *)
Lemma cell_frame idx cols f i c :
  Pd.cell (Pd.frame idx cols f) i c
    = if decide (i ∈ idx ∧ c ∈ cols) then f i c else None.
Proof.
  case_decide as H.
  - destruct H as [Hi Hc].
    destruct (get_loc_elem_of i idx Hi) as [r Hr].
    destruct (get_loc_elem_of c cols Hc) as [k Hk].
    unfold Pd.cell, Pd.frame. simpl. rewrite Hr, Hk. simpl.
    apply get_loc_Some in Hr, Hk.
    rewrite list_lookup_fmap, Hr. simpl.
    by rewrite list_lookup_fmap, Hk.
  - apply not_and_l in H as [H|H].
    + by apply cell_outside_index.
    + by apply cell_outside_columns.
Qed.


(** The cells of the merge, for all labels. *)
Lemma cell_combine_first new old i c :
  Pd.cell (Pd.combine_first new old) i c
    = prefer_new (Pd.cell new i c) (Pd.cell old i c).
Proof.
  unfold Pd.combine_first. rewrite cell_frame. case_decide as H; [done|].
  apply not_and_l in H as [H|H].
  - rewrite elem_of_pd_union in H.
    by rewrite !cell_outside_index by naive_solver.
  - rewrite elem_of_pd_union in H.
    by rewrite !cell_outside_columns by naive_solver.
Qed.

(** Sorting the columns moves the cells with their labels. *)
Lemma cell_sort_index_columns df i c :
  Pd.cell (Pd.sort_index_columns df) i c = Pd.cell df i c.
Proof.
  unfold Pd.sort_index_columns. rewrite cell_frame. case_decide as H; [done|].
  apply not_and_l in H as [H|H].
  - by rewrite cell_outside_index.
  - rewrite elem_of_msort in H. by rewrite cell_outside_columns.
Qed.

Lemma retry_if_oserror_Ok {A B} n (fn : A → result B) a b :
  fn a = Ok b → retry_if_oserror n fn a = Ok b.
Proof. intros H. destruct n; simpl; by rewrite H. Qed.

(** ** [save_csv] *)

Lemma save_csv_absent path_csv df fs :
  Os.exists_ fs path_csv = false →
  save_csv path_csv df fs
    = Ok (Os.write fs path_csv (Csv (Pd.sort_index_columns df))).
Proof.
  intros H. unfold save_csv. rewrite H.
  by apply retry_if_oserror_Ok.
Qed.

Lemma save_csv_table path_csv df old fs :
  files fs !! path_csv = Some (Csv old) →
  save_csv path_csv df fs
    = Ok (Os.write fs path_csv
            (Csv (Pd.sort_index_columns (Pd.combine_first df old)))).
Proof.
  intros H. unfold save_csv.
  assert (Os.exists_ fs path_csv = true) as ->.
  { apply exists_iff, elem_of_union_r, elem_of_dom. by eexists. }
  unfold Pd.read_csv. rewrite H. by apply retry_if_oserror_Ok.
Qed.










(** The example of the specification: old [{7: {x: 1, y: 2}}] and new
    [{7: {x: 9}}] give [{7: {x: 9, y: 2}}]. *)
Example save_csv_merge_demo :
  save_csv "out/predictions.csv" Demo.new_batch Demo.fs_with_table
    = Ok (Os.write Demo.fs_with_table "out/predictions.csv"
            (Csv {| index := [7%Z];
                    columns := ["x"; "y"];
                    values := [[Some (Num 9); Some (Num 2)]] |})).
Proof. reflexivity. Qed.

(** [save_csv] succeeds when the destination is free or holds a table. *)
Lemma save_csv_succeeds path_csv df fs :
  destination_ok fs path_csv → ∃ fs1, save_csv path_csv df fs = Ok fs1.
Proof.
  intros [H|[old H]]; eexists.
  - by apply save_csv_absent.
  - by apply save_csv_table.
Qed.

(** The tables that [save_csv] writes have distinct labels when the batch
    and the table before have. *)
Lemma save_csv_unique_labels path_csv df fs fs1 :
  unique_labels df →
  (∀ old, files fs !! path_csv = Some (Csv old) → unique_labels old) →
  save_csv path_csv df fs = Ok fs1 →
  ∃ t, files fs1 !! path_csv = Some (Csv t) ∧ unique_labels t.
Proof.
  intros [Hi Hc] Hold Hrun.
  destruct (Os.exists_ fs path_csv) eqn:Hex.
  - destruct (files fs !! path_csv) as [[ar|old|doc]|] eqn:E.
    2:{ rewrite (save_csv_table _ _ old) in Hrun by done.
        injection Hrun as <-. eexists. simpl. rewrite lookup_insert_eq.
        destruct (Hold old eq_refl) as [Hi' Hc'].
        split; [done|]. split; simpl.
        - apply NoDup_pd_union; try apply _; done.
        - apply NoDup_msort; [apply _..|].
          apply NoDup_pd_union; try apply _; done. }
    all: unfold save_csv, Pd.read_csv in Hrun;
      by rewrite Hex, E in Hrun.
  - rewrite save_csv_absent in Hrun by done.
    injection Hrun as <-. eexists. simpl. rewrite lookup_insert_eq.
    split; [done|]. split; simpl; [done|].
    by apply NoDup_msort; [apply _..|].
Qed.



(** The rows of a batch built by [main] come from dictionaries, so its
    columns are distinct. *)
Lemma frame_of_entries_columns index_name entries df :
  frame_of_entries index_name entries = Ok df → NoDup (columns df).
Proof.
  unfold frame_of_entries.
  destruct (foldr _ _ _) as [labels|e]; simpl; [|done].
  intros [= <-]. simpl. apply NoDup_filter, NoDup_remove_dups.
Qed.

(** C6.  Whenever [save_csv] writes a table, its columns, which are the
    columns other than the identifiers, are in lexicographic order, whatever
    the order of the columns of the batch and of the table found at the
    destination. *)
Theorem save_csv_columns_sorted path_csv df fs fs1
    (Hrun : save_csv path_csv df fs = Ok fs1) :
  ∃ t, files fs1 !! path_csv = Some (Csv t)
       ∧ Sorted String.le (columns t).
Proof.
  assert (∃ d, save_csv path_csv df fs
               = Ok (Os.write fs path_csv (Csv (Pd.sort_index_columns d))))
    as [d Hd].
  { destruct (Os.exists_ fs path_csv) eqn:Hex.
    - destruct (files fs !! path_csv) as [[ar|old|doc]|] eqn:E.
      2:{ eexists. by apply save_csv_table. }
      all: unfold save_csv, Pd.read_csv in Hrun;
        by rewrite Hex, E in Hrun.
    - eexists. by apply save_csv_absent. }
  rewrite Hd in Hrun. injection Hrun as <-.
  eexists. simpl. rewrite lookup_insert_eq. split; [done|].
  simpl. apply Sorted_merge_sort, _.
Qed.

Lemma save_csv_columns_sorted_witness :
  ∃ t, files (Os.write Demo.fs_with_unsorted "out/predictions.csv"
                (Csv (Pd.sort_index_columns
                        (Pd.combine_first Demo.unsorted_batch
                                          Demo.unsorted_table))))
         !! "out/predictions.csv" = Some (Csv t)
       ∧ Sorted String.le (columns t).
Proof.
  apply (save_csv_columns_sorted "out/predictions.csv" Demo.unsorted_batch
           Demo.fs_with_unsorted).
  reflexivity.
Defined.

(** Upper case sorts before lower case, as in Python. *)
Example save_csv_sorted_demo :
  ∃ fs1 t,
    save_csv "out/predictions.csv" Demo.unsorted_batch Demo.fs_with_unsorted
      = Ok fs1
    ∧ files fs1 !! "out/predictions.csv" = Some (Csv t)
    ∧ index t = [1; 2; 3]%Z
    ∧ columns t = ["Zeta"; "metric.a"; "path_signal"; "path_target"].
Proof. eexists _, _. split; [reflexivity|]. by vm_compute. Qed.

(** * Further properties *)

(** ** More on [parse_model] *)

(** X1.  [parse_model] returns a definition exactly for the strings with at
    most one [:], and raises the error of line 91 exactly for the others:
    there is no other outcome. *)
Theorem parse_model_accepts s :
  ((∃ m, parse_model s = Ok m) ↔ Py.count ":" s ≤ 1)
  ∧ (parse_model s = Err (ValueError multiple_sep_msg) ↔ 1 < Py.count ":" s).
Proof.
  unfold parse_model. rewrite split_length.
  destruct (2 <? S (Py.count ":" s))%nat eqn:E.
  - apply Nat.ltb_lt in E. split; split; try done; try lia.
    by intros [m ?].
  - apply Nat.ltb_ge in E. split; split; try done; try lia.
    intros _. by eexists.
Qed.

(** X2.  What [parse_model] returns determines the string it was given: the
    string is the path alone when there are no options, and otherwise the
    path, a [:], and the options joined by commas; the name is the base
    name of the path and the options joined by dots. *)
Theorem parse_model_roundtrip s m (Hm : parse_model s = Ok m) :
  s = match md_options m with
      | [] => md_path m
      | _ => md_path m +:+ ":" +:+ Py.join "," (md_options m)
      end
  ∧ md_name m = Py.join "." (Path.basename (md_path m) :: md_options m).
Proof.
  unfold parse_model in Hm.
  pose proof (join_split ":" s) as Hjoin.
  pose proof (split_nonempty ":" s) as Hne.
  destruct (Py.split ":" s) as [|a [|b [|c r]]]; [done|..]; simpl in Hm.
  - injection Hm as <-. simpl in *. done.
  - injection Hm as <-. simpl in *.
    pose proof (split_nonempty "," b) as Hb.
    pose proof (join_split "," b) as Hjb.
    destruct (Py.split "," b) as [|o os]; [done|].
    split; [|done]. rewrite <- Hjoin. by rewrite Hjb.
  - done.
Qed.

Lemma parse_model_roundtrip_witness :
  "models/a:flag1,flag2"
    = "models/a" +:+ ":" +:+ Py.join "," ["flag1"; "flag2"]
  ∧ "a.flag1.flag2"
    = Py.join "." (Path.basename "models/a" :: ["flag1"; "flag2"]).
Proof.
  exact (parse_model_roundtrip "models/a:flag1,flag2"
           {| md_path := "models/a";
              md_options := ["flag1"; "flag2"];
              md_name := "a.flag1.flag2" |} eq_refl).
Defined.

(** X3.  In a definition returned by [parse_model] the path holds no [:],
    and no option holds a [:] or a comma. *)
Theorem parse_model_fields s m (Hm : parse_model s = Ok m) :
  Py.count ":" (md_path m) = 0
  ∧ ∀ o, o ∈ md_options m → Py.count ":" o = 0 ∧ Py.count "," o = 0.
Proof.
  unfold parse_model in Hm.
  pose proof (split_pieces ":" s) as Hp.
  pose proof (split_nonempty ":" s) as Hne.
  destruct (Py.split ":" s) as [|a [|b [|c r]]]; [done|..]; simpl in Hm.
  - injection Hm as <-. simpl. split; [apply Hp; by left|].
    intros o Ho. by apply elem_of_nil in Ho.
  - injection Hm as <-. simpl. split; [apply Hp; by left|].
    intros o Ho. split; [|by eapply split_pieces].
    assert (Py.count ":" b = 0) as Hb by (apply Hp; right; by left).
    assert (Py.count ":" (Py.join "," (Py.split "," b)) = 0) as Hj
      by by rewrite join_split.
    clear -Ho Hj. revert Hj.
    induction (Py.split "," b) as [|x [|y l] IH].
    + by apply elem_of_nil in Ho.
    + apply list_elem_of_singleton in Ho as ->. done.
    + change (Py.join "," (x :: y :: l))
        with (x +:+ "," +:+ Py.join "," (y :: l)).
      rewrite !count_app. intros Hj.
      apply elem_of_cons in Ho as [->|Ho]; [lia|]. apply IH; [done|lia].
  - done.
Qed.

Lemma parse_model_fields_witness :
  Py.count ":" "models/a" = 0
  ∧ ∀ o, o ∈ ["flag1"; "flag2"] → Py.count ":" o = 0 ∧ Py.count "," o = 0.
Proof.
  exact (parse_model_fields "models/a:flag1,flag2"
           {| md_path := "models/a";
              md_options := ["flag1"; "flag2"];
              md_name := "a.flag1.flag2" |} eq_refl).
Defined.

(** ** More on [get_dataset] *)

(** X4.  When [get_dataset] returns a dataset, exactly one source was given:
    either a name that resolves to a callable, whose result on the keyword
    arguments is the dataset, or a path that exists, of which the dataset is
    the [TiffDataset], over the files of the directory when the path is a
    directory and over the path itself otherwise. *)
Theorem get_dataset_Ok_inv ext args fs ds
    (Hds : get_dataset ext args fs = Ok ds) :
  (∃ name call,
      dataset args = Some name ∧ path_tif args = None
      ∧ str_to_object ext name = Ok (PyDatasetFn call)
      ∧ call (dataset_kwargs args) = Ok ds)
  ∨ (∃ p,
      dataset args = None ∧ path_tif args = Some p
      ∧ Os.exists_ fs p = true
      ∧ ds = TiffDataset ext (if bool_decide (p ∈ dirs fs)
                              then files_from_dir ext fs p else [p])).
Proof.
  unfold get_dataset in Hds.
  destruct (dataset args) as [name|], (path_tif args) as [p|];
    simpl in Hds; try done.
  - left. destruct (str_to_object ext name) as [[call| |]|] eqn:E;
      simpl in Hds; try done.
    by exists name, call.
  - right. exists p. destruct (Os.exists_ fs p); simpl in Hds; [|done].
    injection Hds as <-. done.
Qed.

Lemma get_dataset_Ok_inv_witness :
  (∃ name call,
      dataset Demo.args = Some name ∧ path_tif Demo.args = None
      ∧ str_to_object Demo.ext name = Ok (PyDatasetFn call)
      ∧ call (dataset_kwargs Demo.args) = Ok Demo.ds)
  ∨ (∃ p,
      dataset Demo.args = None ∧ path_tif Demo.args = Some p
      ∧ Os.exists_ Demo.fs p = true
      ∧ Demo.ds = TiffDataset Demo.ext
                    (if bool_decide (p ∈ dirs Demo.fs)
                     then files_from_dir Demo.ext Demo.fs p else [p])).
Proof.
  exact (get_dataset_Ok_inv Demo.ext Demo.args Demo.fs Demo.ds eq_refl).
Defined.

(** X5.  With a path as the only source, [get_dataset] raises [ValueError]
    when nothing exists at the path; with a name as the only source, it
    raises [ValueError] when the name resolves to an object that cannot be
    called. *)
Theorem get_dataset_rejects ext args fs :
  (∀ p, dataset args = None → path_tif args = Some p →
        Os.exists_ fs p = false →
        get_dataset ext args fs
          = Err (ValueError ("Path does not exists: " +:+ p)))
  ∧ (∀ name, dataset args = Some name → path_tif args = None →
             str_to_object ext name = Ok PyNotCallable →
             get_dataset ext args fs
               = Err (ValueError (name +:+ " must be callable"))).
Proof.
  split.
  - intros p Hd Hp Hex. unfold get_dataset. rewrite Hd, Hp. simpl.
    by rewrite Hex.
  - intros name Hd Hp Hobj. unfold get_dataset. rewrite Hd, Hp. simpl.
    by rewrite Hobj.
Qed.

Lemma get_dataset_rejects_witness :
  get_dataset Demo.ext (More.path_source "images") Demo.fs
    = Err (ValueError ("Path does not exists: " +:+ "images"))
  ∧ get_dataset More.not_callable Demo.args Demo.fs
    = Err (ValueError ("dataset" +:+ " must be callable")).
Proof.
  split.
  - exact (proj1 (get_dataset_rejects Demo.ext (More.path_source "images")
                    Demo.fs) "images" eq_refl eq_refl eq_refl).
  - exact (proj2 (get_dataset_rejects More.not_callable Demo.args Demo.fs)
             "dataset" eq_refl eq_refl eq_refl).
Defined.

(** ** More on [save_tif] *)

Lemma relpath_Ok cwd path start :
  path ≠ "" → ∃ rel, Path.relpath cwd path start = Ok rel.
Proof.
  intros H. unfold Path.relpath. rewrite bool_decide_eq_false_2 by done.
  case_match; by eexists.
Qed.

Lemma join_ne_nil_l a b : a ≠ "" → Path.join a b ≠ "".
Proof.
  intros Ha. unfold Path.join. destruct (Path.startswith_sep b) eqn:E.
  - by destruct b.
  - case_match; by destruct a.
Qed.

Lemma exists_with_dir fs d : Os.exists_ (with_dir fs d) d = true.
Proof.
  unfold with_dir. destruct (Os.exists_ fs d) eqn:E; [done|].
  apply exists_iff. unfold paths. simpl.
  apply elem_of_union_l, elem_of_union_r. by apply elem_of_singleton.
Qed.

Lemma with_dir_exists fs d : Os.exists_ fs d = true → with_dir fs d = fs.
Proof. intros H. unfold with_dir. by rewrite H. Qed.

Lemma exists_write fs p c q :
  Os.exists_ fs q = true → Os.exists_ (Os.write fs p c) q = true.
Proof.
  rewrite !exists_iff. unfold paths. simpl. rewrite dom_insert_L.
  intros [?|?]%elem_of_union; [by apply elem_of_union_l|].
  by apply elem_of_union_r, elem_of_union_r.
Qed.

(** [save_tif] as one step: the directory, the write, the path returned. *)
Lemma save_tif_unfold fname ar path_root fs :
  save_tif fname ar path_root fs =
    let path_tif_dir := Path.join path_root "tifs" in
    let path_save := Path.join path_tif_dir fname in
    rel ← Path.relpath (cwd fs) path_save path_root;
    Ok (Os.write (with_dir fs path_tif_dir) path_save (Tif ar), rel).
Proof.
  unfold save_tif, with_dir, Os.makedirs.
  by destruct (Os.exists_ fs (Path.join path_root "tifs")) eqn:E.
Qed.

Lemma save_tif_Ok fname ar path_root fs :
  ∃ rel,
    Path.relpath (cwd fs) (Path.join (Path.join path_root "tifs") fname)
      path_root = Ok rel
    ∧ save_tif fname ar path_root fs
      = Ok (Os.write (with_dir fs (Path.join path_root "tifs"))
              (Path.join (Path.join path_root "tifs") fname) (Tif ar), rel).
Proof.
  destruct (relpath_Ok (cwd fs)
              (Path.join (Path.join path_root "tifs") fname) path_root)
    as [rel Hrel].
  { apply join_ne_nil_l. by apply join_ne_nil. }
  exists rel. split; [done|]. rewrite save_tif_unfold. simpl.
  by rewrite Hrel.
Qed.

(** X6.  In a file system whose operations succeed [save_tif] never raises,
    whatever the name, the array and the root: the guard of line 77 keeps
    [os.makedirs] from an existing path, and the path handed to [relpath] is
    never empty.  The array is stored at the join of the root, ["tifs"] and
    the name; the directory exists afterwards; the working directory is
    kept, no directory goes away and no other file changes. *)
Theorem save_tif_always_saves fname ar path_root fs :
  ∃ fs' rel,
    save_tif fname ar path_root fs = Ok (fs', rel)
    ∧ files fs' !! Path.join (Path.join path_root "tifs") fname
        = Some (Tif ar)
    ∧ Os.exists_ fs' (Path.join path_root "tifs") = true
    ∧ cwd fs' = cwd fs
    ∧ dirs fs ⊆ dirs fs'
    ∧ ∀ p, p ≠ Path.join (Path.join path_root "tifs") fname →
           files fs' !! p = files fs !! p.
Proof.
  destruct (save_tif_Ok fname ar path_root fs) as (rel & _ & ->).
  eexists _, _. split; [done|]. split_and!.
  - simpl. by rewrite lookup_insert_eq.
  - apply exists_write, exists_with_dir.
  - simpl. unfold with_dir. by case_match.
  - simpl. unfold with_dir. case_match; [done|]. simpl.
    intros p Hp. by apply elem_of_union_l, elem_of_union_l.
  - intros p Hp. simpl. rewrite lookup_insert_ne by done.
    unfold with_dir. by case_match.
Qed.

(** X7.  [save_tif] does not keep the file under the root: a name that
    starts with a separator replaces the directory in the join of line 80,
    and the array is stored at that very path. *)
Theorem save_tif_absolute_name fname ar path_root fs
    (Habs : Path.startswith_sep fname = true) :
  ∃ fs' rel,
    save_tif fname ar path_root fs = Ok (fs', rel)
    ∧ files fs' !! fname = Some (Tif ar).
Proof.
  destruct (save_tif_Ok fname ar path_root fs) as (rel & _ & ->).
  eexists _, _. split; [done|]. simpl.
  unfold Path.join at 1. rewrite Habs. by rewrite lookup_insert_eq.
Qed.

Lemma save_tif_absolute_name_witness :
  ∃ fs' rel,
    save_tif "/tmp/x.tif" [] "out" Demo.fs = Ok (fs', rel)
    ∧ files fs' !! "/tmp/x.tif" = Some (Tif []).
Proof.
  exact (save_tif_absolute_name "/tmp/x.tif" [] "out" Demo.fs eq_refl).
Defined.

(** X8.  Saving a second array under the same name and root replaces the
    first: the call succeeds with the same path returned, the file holds
    the second array, and neither the directories nor the set of files
    change. *)
Theorem save_tif_overwrites fname ar1 ar2 path_root fs :
  ∃ fs1 fs2 rel,
    save_tif fname ar1 path_root fs = Ok (fs1, rel)
    ∧ save_tif fname ar2 path_root fs1 = Ok (fs2, rel)
    ∧ files fs2 !! Path.join (Path.join path_root "tifs") fname
        = Some (Tif ar2)
    ∧ dirs fs2 = dirs fs1
    ∧ dom (files fs2) = dom (files fs1).
Proof.
  destruct (save_tif_Ok fname ar1 path_root fs) as (rel & Hrel & H1).
  eexists _, _, rel. split; [exact H1|].
  rewrite save_tif_unfold. simpl.
  assert (cwd (with_dir fs (Path.join path_root "tifs")) = cwd fs) as ->.
  { unfold with_dir. by case_match. }
  rewrite Hrel. simpl.
  rewrite with_dir_exists by apply exists_write, exists_with_dir.
  split; [done|]. simpl. split_and!.
  - by rewrite lookup_insert_eq.
  - done.
  - rewrite !dom_insert_L. apply set_eq. intros x.
    rewrite !elem_of_union. tauto.
Qed.

(** ** More on [save_csv] *)

(** The two ways in which [save_csv] succeeds. *)
Lemma save_csv_Ok_inv path_csv df fs fs1 :
  save_csv path_csv df fs = Ok fs1 →
  (Os.exists_ fs path_csv = false
   ∧ files fs !! path_csv = None
   ∧ fs1 = Os.write fs path_csv (Csv (Pd.sort_index_columns df)))
  ∨ (∃ old, files fs !! path_csv = Some (Csv old)
       ∧ fs1 = Os.write fs path_csv
                 (Csv (Pd.sort_index_columns (Pd.combine_first df old)))).
Proof.
  intros Hrun. destruct (Os.exists_ fs path_csv) eqn:Hex.
  - destruct (files fs !! path_csv) as [[ar|old|doc]|] eqn:E.
    2:{ right. exists old. split; [done|].
        rewrite (save_csv_table _ _ old) in Hrun by done.
        by injection Hrun as <-. }
    all: unfold save_csv, Pd.read_csv in Hrun;
      by rewrite Hex, E in Hrun.
  - left. split; [done|]. split.
    + unfold Os.exists_ in Hex. apply orb_false_iff in Hex as [_ Hex].
      apply bool_decide_eq_false in Hex.
      destruct (files fs !! path_csv) eqn:E; [|done].
      destruct Hex. by eexists.
    + rewrite save_csv_absent in Hrun by done. by injection Hrun as <-.
Qed.

(** The cells of the table at the destination after a save. *)
Lemma stored_cell_save_csv path_csv df fs fs1 :
  save_csv path_csv df fs = Ok fs1 →
  ∀ i c, stored_cell fs1 path_csv i c
         = prefer_new (Pd.cell df i c) (stored_cell fs path_csv i c).
Proof.
  intros [(_ & Hnone & ->)|(old & Hold & ->)]%save_csv_Ok_inv i c;
    unfold stored_cell; simpl; rewrite lookup_insert_eq.
  - rewrite Hnone, cell_sort_index_columns.
    by destruct (Pd.cell df i c).
  - by rewrite Hold, cell_sort_index_columns, cell_combine_first.
Qed.

(** X9.  At a destination where nothing exists, [save_csv] writes the batch
    itself with its columns put in order: the rows keep their labels and
    their order, the columns are those of the batch, sorted, and every cell
    reads as in the batch. *)
Theorem save_csv_fresh path_csv df fs
    (Hfree : Os.exists_ fs path_csv = false) :
  ∃ t, save_csv path_csv df fs = Ok (Os.write fs path_csv (Csv t))
    ∧ index t = index df
    ∧ columns t ≡ₚ columns df
    ∧ Sorted String.le (columns t)
    ∧ ∀ i c, Pd.cell t i c = Pd.cell df i c.
Proof.
  exists (Pd.sort_index_columns df).
  split; [by apply save_csv_absent|]. split; [done|]. split_and!.
  - simpl. apply merge_sort_Permutation.
  - simpl. apply Sorted_merge_sort, _.
  - intros i c. apply cell_sort_index_columns.
Qed.

Lemma save_csv_fresh_witness :
  ∃ t, save_csv "out/predictions.csv" Demo.unsorted_batch Demo.fs
         = Ok (Os.write Demo.fs "out/predictions.csv" (Csv t))
    ∧ index t = index Demo.unsorted_batch
    ∧ columns t ≡ₚ columns Demo.unsorted_batch
    ∧ Sorted String.le (columns t)
    ∧ ∀ i c, Pd.cell t i c = Pd.cell Demo.unsorted_batch i c.
Proof.
  apply (save_csv_fresh "out/predictions.csv" Demo.unsorted_batch Demo.fs).
  reflexivity.
Defined.

(** X10.  A successful [save_csv] changes the file at the destination and
    nothing else: the working directory, the directories and every other
    file are as before. *)
Theorem save_csv_only_destination path_csv df fs fs1
    (Hrun : save_csv path_csv df fs = Ok fs1) :
  cwd fs1 = cwd fs
  ∧ dirs fs1 = dirs fs
  ∧ ∀ p, p ≠ path_csv → files fs1 !! p = files fs !! p.
Proof.
  apply save_csv_Ok_inv in Hrun as [(_ & _ & ->)|(old & _ & ->)];
    (split; [done|]; split; [done|]);
    intros p Hp; simpl; by rewrite lookup_insert_ne.
Qed.

Lemma save_csv_only_destination_witness :
  let fs1 := Os.write Demo.fs_with_table "out/predictions.csv"
               (Csv (Pd.sort_index_columns
                       (Pd.combine_first Demo.new_batch Demo.old_table))) in
  cwd fs1 = cwd Demo.fs_with_table
  ∧ dirs fs1 = dirs Demo.fs_with_table
  ∧ ∀ p, p ≠ "out/predictions.csv" →
         files fs1 !! p = files Demo.fs_with_table !! p.
Proof.
  intros fs1.
  apply (save_csv_only_destination "out/predictions.csv" Demo.new_batch
           Demo.fs_with_table fs1).
  reflexivity.
Defined.

(** X11.  When the destination is a directory, [save_csv] raises [OSError]
    and writes nothing: the path exists, so the table is read first, and
    the read lies outside the call that [retry_if_oserror] guards. *)
Theorem save_csv_directory path_csv df fs
    (Hdir : path_csv ∈ dirs fs) (Hfile : files fs !! path_csv = None) :
  ∃ msg, save_csv path_csv df fs = Err (OSError msg).
Proof.
  unfold save_csv.
  assert (Os.exists_ fs path_csv = true) as ->.
  { apply exists_iff. unfold paths. by apply elem_of_union_l. }
  unfold Pd.read_csv. rewrite Hfile. by eexists.
Qed.

Lemma save_csv_directory_witness :
  ∃ msg, save_csv "out/predictions.csv" Demo.new_batch More.fs_with_dir
         = Err (OSError msg).
Proof.
  apply (save_csv_directory "out/predictions.csv" Demo.new_batch
           More.fs_with_dir).
  - apply (bool_decide_unpack _). by vm_compute.
  - reflexivity.
Defined.

(** X12.  Two saves, one after the other, to the same destination: a cell
    of the table holds the value of the second batch, else that of the
    first, else the one it had before.  When the second batch has a value
    wherever the first has one, as the growing list of rows of [main] has,
    the first save leaves no trace. *)
Theorem save_csv_twice path_csv a b fs fs1 fs2
    (Ha : save_csv path_csv a fs = Ok fs1)
    (Hb : save_csv path_csv b fs1 = Ok fs2) :
  (∀ i c, stored_cell fs2 path_csv i c
          = prefer_new (Pd.cell b i c)
              (prefer_new (Pd.cell a i c) (stored_cell fs path_csv i c)))
  ∧ ((∀ i c, is_Some (Pd.cell a i c) → is_Some (Pd.cell b i c)) →
     ∀ i c, stored_cell fs2 path_csv i c
            = prefer_new (Pd.cell b i c) (stored_cell fs path_csv i c)).
Proof.
  assert (∀ i c, stored_cell fs2 path_csv i c
          = prefer_new (Pd.cell b i c)
              (prefer_new (Pd.cell a i c) (stored_cell fs path_csv i c)))
    as Hcells.
  { intros i c.
    by rewrite (stored_cell_save_csv _ _ _ _ Hb),
               (stored_cell_save_csv _ _ _ _ Ha). }
  split; [done|]. intros Hcover i c. rewrite Hcells.
  specialize (Hcover i c).
  destruct (Pd.cell a i c) as [v|]; [|done].
  destruct Hcover as [w ->]; [by eexists|]. done.
Qed.

Lemma save_csv_twice_witness :
  let fs1 := Os.write Demo.fs "out/predictions.csv"
               (Csv (Pd.sort_index_columns Demo.old_table)) in
  let fs2 := Os.write fs1 "out/predictions.csv"
               (Csv (Pd.sort_index_columns
                       (Pd.combine_first Demo.new_batch
                          (Pd.sort_index_columns Demo.old_table)))) in
  (∀ i c, stored_cell fs2 "out/predictions.csv" i c
          = prefer_new (Pd.cell Demo.new_batch i c)
              (prefer_new (Pd.cell Demo.old_table i c)
                 (stored_cell Demo.fs "out/predictions.csv" i c)))
  ∧ ((∀ i c, is_Some (Pd.cell Demo.old_table i c) →
             is_Some (Pd.cell Demo.new_batch i c)) →
     ∀ i c, stored_cell fs2 "out/predictions.csv" i c
            = prefer_new (Pd.cell Demo.new_batch i c)
                (stored_cell Demo.fs "out/predictions.csv" i c)).
Proof.
  intros fs1 fs2.
  apply (save_csv_twice "out/predictions.csv" Demo.old_table Demo.new_batch
           Demo.fs fs1 fs2); reflexivity.
Defined.

(** X13.  [save_csv] keeps the labels of the table distinct: when no label
    repeats on either axis of the batch, nor of the table that the
    destination holds, none repeats in the table written; and the rows of
    that table are those of the batch together with those of the table
    before. *)
Theorem save_csv_labels path_csv df fs fs1
    (Hdf : unique_labels df)
    (Hold : ∀ old, files fs !! path_csv = Some (Csv old) → unique_labels old)
    (Hrun : save_csv path_csv df fs = Ok fs1) :
  ∃ t, files fs1 !! path_csv = Some (Csv t)
    ∧ unique_labels t
    ∧ ∀ i, i ∈ index t
           ↔ i ∈ index df
             ∨ ∃ old, files fs !! path_csv = Some (Csv old) ∧ i ∈ index old.
Proof.
  destruct Hdf as [Hi Hc].
  apply save_csv_Ok_inv in Hrun as [(_ & Hnone & ->)|(old & Hfile & ->)];
    eexists; (split; [simpl; by rewrite lookup_insert_eq|]).
  - split.
    + split; simpl; [done|]. by apply NoDup_msort; [apply _..|].
    + intros i. simpl. split; [by left|].
      intros [?|(old & Hfile & _)]; [done|]. by rewrite Hnone in Hfile.
  - destruct (Hold old Hfile) as [Hi' Hc']. split.
    + split; simpl.
      * apply NoDup_pd_union; try apply _; done.
      * apply NoDup_msort; [apply _..|].
        apply NoDup_pd_union; try apply _; done.
    + intros i. simpl. rewrite elem_of_pd_union by apply _.
      split; (intros [?|H]; [by left|right]).
      * by exists old.
      * destruct H as (old' & Hfile' & H). rewrite Hfile in Hfile'.
        by simplify_eq.
Qed.

Lemma save_csv_labels_witness :
  ∃ t, files (Os.write Demo.fs_with_table "out/predictions.csv"
                (Csv (Pd.sort_index_columns
                        (Pd.combine_first Demo.new_batch Demo.old_table))))
         !! "out/predictions.csv" = Some (Csv t)
    ∧ unique_labels t
    ∧ ∀ i, i ∈ index t
           ↔ i ∈ index Demo.new_batch
             ∨ ∃ old, files Demo.fs_with_table !! "out/predictions.csv"
                        = Some (Csv old) ∧ i ∈ index old.
Proof.
  apply (save_csv_labels "out/predictions.csv" Demo.new_batch
           Demo.fs_with_table).
  - split; apply (bool_decide_unpack _); by vm_compute.
  - intros old H. vm_compute in H. injection H as <-.
    split; apply (bool_decide_unpack _); by vm_compute.
  - reflexivity.
Defined.

(** ** More on [save_args_as_json] *)

Lemma default_numbered_ne dir n :
  (0 ≤ n)%Z → default_snapshot dir ≠ numbered_snapshot dir n.
Proof.
  intros Hn E. destruct (default_snapshot_number dir) as (number & H1 & H2).
  rewrite E, numbered_snapshot_number in H1 by done.
  injection H1 as <-. destruct (str_nonneg n Hn) as (H & _). congruence.
Qed.

Lemma snapshot_name_inj dir j k :
  snapshot_name dir j = snapshot_name dir k → j = k.
Proof.
  destruct j as [|j], k as [|k]; simpl; intros E; [done|..].
  - by apply default_numbered_ne in E; [|lia].
  - symmetry in E. by apply default_numbered_ne in E; [|lia].
  - apply numbered_snapshot_inj in E; lia.
Qed.

Lemma exists_write_eq fs p c q :
  Os.exists_ (Os.write fs p c) q
    = Os.exists_ fs q || bool_decide (q = p).
Proof.
  apply eq_true_iff_eq. rewrite orb_true_iff, bool_decide_eq_true.
  rewrite !exists_iff. unfold paths. simpl. rewrite dom_insert_L.
  rewrite !elem_of_union, elem_of_singleton. tauto.
Qed.

(** The first free name when the first [k] names exist and the next one
    does not. *)
Lemma first_free_snapshot_name dir fs k p :
  (∀ j, j < k → Os.exists_ fs (snapshot_name dir j) = true) →
  Os.exists_ fs (snapshot_name dir k) = false →
  first_free_snapshot dir fs p → p = snapshot_name dir k.
Proof.
  intros Hbelow Hk [Hp [->|(Hdef & n & Hn & -> & Hbefore)]].
  - destruct k as [|k]; [done|].
    pose proof (Hbelow 0 ltac:(lia)) as H0. simpl in H0. congruence.
  - assert (numbered_snapshot dir n = snapshot_name dir (S (Z.to_nat n)))
      as Hname.
    { simpl. by rewrite Z2Nat.id. }
    rewrite Hname. f_equal.
    destruct (lt_eq_lt_dec (S (Z.to_nat n)) k) as [[Hlt|Heq]|Hgt]; [|done|].
    + rewrite Hname, (Hbelow _ Hlt) in Hp. done.
    + destruct k as [|k]; [simpl in Hk; congruence|].
      simpl in Hk. rewrite Hbefore in Hk by lia. done.
Qed.

Lemma snapshots_from dir :
  ∀ runs fs k,
    (∀ j, j < k → Os.exists_ fs (snapshot_name dir j) = true) →
    (∀ j, j < length runs →
          Os.exists_ fs (snapshot_name dir (k + j)) = false) →
    ∃ fs',
      snapshots runs dir fs = Ok fs'
      ∧ (∀ j args, runs !! j = Some args →
                   files fs' !! snapshot_name dir (k + j) = Some (Json args))
      ∧ (∀ p, (∀ j, j < length runs → p ≠ snapshot_name dir (k + j)) →
              files fs' !! p = files fs !! p)
      ∧ cwd fs' = cwd fs
      ∧ dirs fs' = dirs fs.
Proof.
  induction runs as [|args rest IH]; intros fs k Hbelow Hfree.
  - exists fs. split; [done|]. split; [by intros j a ?|]. done.
  - destruct (save_args_as_json_once dir args fs (enough_fuel fs))
      as (p & Hsave & Hfirst & _); [done|].
    apply (first_free_snapshot_name dir fs k) in Hfirst as ->; [|done|].
    2:{ specialize (Hfree 0). rewrite Nat.add_0_r in Hfree.
        apply Hfree. simpl. lia. }
    destruct (IH (Os.write fs (snapshot_name dir k) (Json args)) (S k))
      as (fs' & Hrun & Hnew & Hframe & Hcwd & Hdirs).
    { intros j Hj. rewrite exists_write_eq.
      destruct (decide (j = k)) as [->|].
      - rewrite bool_decide_eq_true_2 by done. apply orb_true_r.
      - rewrite Hbelow by lia. done. }
    { intros j Hj. rewrite exists_write_eq.
      replace (S k + j) with (k + S j) by lia.
      rewrite Hfree by (simpl; lia).
      apply bool_decide_eq_false_2. intros E%snapshot_name_inj. lia. }
    exists fs'. split.
    { simpl. rewrite Hsave. simpl. exact Hrun. }
    split_and!.
    + intros [|j] a Hj.
      * injection Hj as ->. rewrite Nat.add_0_r.
        rewrite Hframe.
        -- simpl. by rewrite lookup_insert_eq.
        -- intros j Hj E%snapshot_name_inj. lia.
      * replace (k + S j) with (S k + j) by lia. by apply Hnew.
    + intros p Hp. rewrite Hframe.
      * simpl. rewrite lookup_insert_ne; [done|].
        intros E. apply (Hp 0); [simpl; lia|].
        by rewrite Nat.add_0_r.
      * intros j Hj. replace (S k + j) with (k + S j) by lia.
        apply Hp. simpl. lia.
    + by rewrite Hcwd.
    + by rewrite Hdirs.
Qed.

(** X14.  Runs that share an output directory leave their snapshots side
    by side.  When none of the first names exists, the run number [k],
    counted from 0, stores its arguments under the name number [k]: the
    first under [predict_options.json], the next ones under
    [predict_options.0.json], [predict_options.1.json] and so on.  Every
    snapshot is still there after the last run, and no other file and no
    directory changes. *)
Theorem snapshots_in_order dir runs fs
    (Hfree : ∀ k, k < length runs →
                  Os.exists_ fs (snapshot_name dir k) = false) :
  ∃ fs',
    snapshots runs dir fs = Ok fs'
    ∧ (∀ k args, runs !! k = Some args →
                 files fs' !! snapshot_name dir k = Some (Json args))
    ∧ (∀ p, (∀ k, k < length runs → p ≠ snapshot_name dir k) →
            files fs' !! p = files fs !! p)
    ∧ cwd fs' = cwd fs
    ∧ dirs fs' = dirs fs.
Proof.
  destruct (snapshots_from dir runs fs 0) as (fs' & H); [lia|done|].
  by exists fs'.
Qed.

Lemma snapshots_in_order_witness :
  ∃ fs',
    snapshots [Demo.args; Demo.both_sources; Demo.args] "out" Demo.fs
      = Ok fs'
    ∧ (∀ k args,
         [Demo.args; Demo.both_sources; Demo.args] !! k = Some args →
         files fs' !! snapshot_name "out" k = Some (Json args))
    ∧ (∀ p, (∀ k, k < 3 → p ≠ snapshot_name "out" k) →
            files fs' !! p = files Demo.fs !! p)
    ∧ cwd fs' = cwd Demo.fs
    ∧ dirs fs' = dirs Demo.fs.
Proof.
  apply (snapshots_in_order "out"
           [Demo.args; Demo.both_sources; Demo.args] Demo.fs).
  intros [|[|[|k]]] Hk; [by vm_compute..|simpl in Hk; lia].
Defined.

(** ** More on [main]: when the result table is written *)

(** The counts of the calls of [save_csv], whatever the indices: the
    multiples of eight, and the count of every sample whose index equals the
    last index. *)
Lemma flush_counts_filter seen todo :
  flush_counts (seen ++ todo) (S (length seen)) todo
    = filter (λ c, c mod 8 = 0
                   ∨ (seen ++ todo) !! (c - 1) = last (seen ++ todo))
             (seq (S (length seen)) (length todo)).
Proof.
  revert seen. induction todo as [|idx rest IH]; intros seen; [done|].
  rewrite flush_counts_cons.
  replace (seen ++ idx :: rest) with ((seen ++ [idx]) ++ rest)
    by by rewrite <- app_assoc.
  specialize (IH (seen ++ [idx])).
  rewrite length_app in IH at 1 2. simpl in IH.
  rewrite Nat.add_1_r in IH. rewrite IH. clear IH.
  cbn [length seq]. rewrite filter_cons.
  assert (((seen ++ [idx]) ++ rest) !! (S (length seen) - 1) = Some idx)
    as Hat.
  { replace (S (length seen) - 1) with (length seen) by lia.
    rewrite <- app_assoc, lookup_app_r by lia.
    by replace (length seen - length seen) with 0 by lia. }
  unfold flush_due. rewrite Hat.
  destruct (S (length seen) mod 8 =? 0) eqn:E8.
  - apply Nat.eqb_eq in E8. rewrite decide_True by by left. done.
  - apply Nat.eqb_neq in E8. simpl.
    destruct (bool_decide (Some idx = last ((seen ++ [idx]) ++ rest))) eqn:El.
    + apply bool_decide_eq_true in El.
      rewrite decide_True by by right. done.
    + apply bool_decide_eq_false in El.
      rewrite decide_False by tauto. done.
Qed.

Lemma flush_counts_last indices :
  indices ≠ [] →
  last (flush_counts indices 1 indices) = Some (length indices).
Proof.
  intros Hne. pose proof (flush_counts_filter [] indices) as H.
  cbn [app length] in H. rewrite H. clear H.
  destruct (last indices) as [x|] eqn:El; [|by apply last_None in El].
  pose proof El as [l' ->]%last_Some.
  rewrite length_app, seq_app, filter_app. simpl.
  rewrite filter_cons, decide_True, filter_nil.
  - rewrite last_snoc. f_equal. lia.
  - right. rewrite lookup_app_r by lia.
    match goal with
    | |- [x] !! ?k = _ => replace k with 0 by lia
    end. done.
Qed.

(** X15.  The calls of [save_csv] of a completed run, for any choice of
    indices: one at each count that is a multiple of eight or whose index
    equals the last index, in that order, each with one row for each sample
    so far.  With at least one sample the last call is at the last count:
    the last table written has a row for every sample of the run. *)
Theorem main_flush_counts ext fuel args s s' ds
    (Hrun : main ext fuel args s = (Ok tt, s'))
    (Hds : get_dataset ext args (rs_fs s) = Ok ds) :
  let indices := selected_indices args ds in
  ∃ new,
    rs_flushes s' = rs_flushes s ++ new
    ∧ new.*1 = filter (λ c, c mod 8 = 0
                            ∨ indices !! (c - 1) = last indices)
                      (seq 1 (length indices))
    ∧ Forall (λ cb : nat * list entry, length cb.2 = cb.1) new
    ∧ (indices ≠ [] →
       ∃ earlier rows,
         new = earlier ++ [(length indices, rows)]
         ∧ length rows = length indices).
Proof.
  intros indices.
  apply main_Ok in Hrun as (ds' & Hds' & _ & new & Hf & Hc & Hb).
  rewrite Hds in Hds'. injection Hds' as <-.
  exists new. split; [done|]. split.
  { rewrite Hc. exact (flush_counts_filter [] indices). }
  split; [done|]. intros Hne.
  pose proof (flush_counts_last indices Hne) as Hlast.
  fold indices in Hc. rewrite <- Hc in Hlast.
  rewrite fmap_last in Hlast.
  destruct (last new) as [[c rows]|] eqn:El; [|done].
  simpl in Hlast. injection Hlast as ->.
  apply last_Some in El as [earlier ->].
  exists earlier, rows. split; [done|].
  apply Forall_app in Hb as [_ Hb]. apply Forall_inv in Hb. exact Hb.
Qed.

Lemma main_flush_counts_witness :
  let s' := (main Demo.ext 1 (Demo.with_indices [5; 1; 5]%Z) Demo.start).2 in
  let indices := selected_indices (Demo.with_indices [5; 1; 5]%Z) Demo.ds in
  ∃ new,
    rs_flushes s' = rs_flushes Demo.start ++ new
    ∧ new.*1 = filter (λ c, c mod 8 = 0
                            ∨ indices !! (c - 1) = last indices)
                      (seq 1 (length indices))
    ∧ Forall (λ cb : nat * list entry, length cb.2 = cb.1) new
    ∧ (indices ≠ [] →
       ∃ earlier rows,
         new = earlier ++ [(length indices, rows)]
         ∧ length rows = length indices).
Proof.
  intros s'.
  apply (main_flush_counts Demo.ext 1 (Demo.with_indices [5; 1; 5]%Z)
           Demo.start s' Demo.ds).
  - vm_compute. reflexivity.
  - reflexivity.
Defined.

(** X16.  When no index repeats among the samples of a completed run,
    [save_csv] is called at the multiples of eight and at the last count,
    at no other count and in that order, each time with one row for each
    sample so far. *)
Theorem main_flush_schedule ext fuel args s s' ds
    (Hrun : main ext fuel args s = (Ok tt, s'))
    (Hds : get_dataset ext args (rs_fs s) = Ok ds)
    (Hnd : NoDup (selected_indices args ds)) :
  ∃ new,
    rs_flushes s' = rs_flushes s ++ new
    ∧ new.*1 = scheduled_counts (length (selected_indices args ds))
    ∧ Forall (λ cb : nat * list entry, length cb.2 = cb.1) new.
Proof.
  apply flushes_scheduled in Hrun as (ds' & new & Hds' & Hf & Hb & Hc).
  rewrite Hds in Hds'. injection Hds' as <-.
  exists new. split_and!; [done| by apply Hc |done].
Qed.

Lemma main_flush_schedule_witness :
  let s' := (main Demo.ext 1 Demo.args Demo.start).2 in
  ∃ new,
    rs_flushes s' = rs_flushes Demo.start ++ new
    ∧ new.*1 = scheduled_counts (length (selected_indices Demo.args Demo.ds))
    ∧ Forall (λ cb : nat * list entry, length cb.2 = cb.1) new.
Proof.
  intros s'.
  apply (main_flush_schedule Demo.ext 1 Demo.args Demo.start s' Demo.ds).
  - vm_compute. reflexivity.
  - reflexivity.
  - apply (bool_decide_unpack _). by vm_compute.
Defined.

(** ** More on [main]: runs without samples, and the model references *)

Lemma string_app_inv_head (pre a b : string) :
  pre +:+ a = pre +:+ b → a = b.
Proof.
  induction pre as [|c pre IH]; [done|].
  rewrite !string_app_cons. intros [= H]. by apply IH.
Qed.

Lemma join_relative_inj dir a b :
  Path.startswith_sep a = false → Path.startswith_sep b = false →
  Path.join dir a = Path.join dir b → a = b.
Proof.
  intros Ha Hb. rewrite !join_relative by done.
  destruct (bool_decide (dir = "") || Path.endswith_sep dir).
  - apply string_app_inv_head.
  - intros H%string_app_inv_head. by apply string_app_inv_head in H.
Qed.

(** The table of the results is not a snapshot. *)
Lemma predictions_csv_no_snapshot args k :
  predictions_csv args ≠ snapshot_name (path_save_dir args) k.
Proof.
  unfold predictions_csv. destruct k as [|j]; simpl;
    unfold default_snapshot, numbered_snapshot;
    intros E%join_relative_inj; try done.
Qed.

(** Lines 169–170: the state once the output directory is there. *)
Lemma ensure_dir_state dir s :
  (if negb (Os.exists_ (rs_fs s) dir)
   then on_fs_ (λ fs, Os.makedirs fs dir)
   else retM tt) s
  = (Ok tt, {| rs_fs := with_dir (rs_fs s) dir;
               rs_processing := rs_processing s;
               rs_flushes := rs_flushes s |}).
Proof.
  unfold with_dir, on_fs_, on_fs, Os.makedirs, retM.
  destruct (Os.exists_ (rs_fs s) dir) eqn:E; simpl.
  - by destruct s.
  - by rewrite E.
Qed.

(** The start of [main], up to the loop. *)
Lemma main_unfold ext fuel args s m ds :
  str_to_object ext (metric args) = Ok m →
  get_dataset ext args (rs_fs s) = Ok ds →
  main ext fuel args s
  = (do _ <- sample_loop ext args m ds (index_name_of ds)
               (selected_indices args ds) 1 (selected_indices args ds)
               (None, []);
     on_fs_ (save_args_as_json fuel (path_save_dir args) args))
      {| rs_fs := with_dir (rs_fs s) (path_save_dir args);
         rs_processing := rs_processing s;
         rs_flushes := rs_flushes s |}.
Proof.
  intros Hm Hds. unfold main.
  unfold bindM at 1. rewrite Hm. simpl.
  unfold bindM at 1. simpl.
  unfold bindM at 1. rewrite Hds. simpl.
  unfold bindM at 1. by rewrite ensure_dir_state.
Qed.

(** X17.  A run over no samples, because the selection or the dataset is
    empty, completes once the metric and the dataset are found: it makes the
    output directory and stores the snapshot of the arguments under the
    first free name, and does nothing else.  No sample is announced,
    [save_csv] is not called and no result table appears; the model
    references are not looked at. *)
Theorem main_empty_selection ext fuel args s m ds
    (Hmetric : str_to_object ext (metric args) = Ok m)
    (Hds : get_dataset ext args (rs_fs s) = Ok ds)
    (Hempty : selected_indices args ds = [])
    (Hfuel : enough_fuel (with_dir (rs_fs s) (path_save_dir args)) ≤ fuel) :
  ∃ path_json,
    let fs0 := with_dir (rs_fs s) (path_save_dir args) in
    main ext fuel args s
      = (Ok tt, {| rs_fs := Os.write fs0 path_json (Json args);
                   rs_processing := rs_processing s;
                   rs_flushes := rs_flushes s |})
    ∧ first_free_snapshot (path_save_dir args) fs0 path_json
    ∧ files (Os.write fs0 path_json (Json args)) !! predictions_csv args
      = files (rs_fs s) !! predictions_csv args.
Proof.
  destruct (save_args_as_json_once (path_save_dir args) args
              (with_dir (rs_fs s) (path_save_dir args)) fuel Hfuel)
    as (p & Hsave & Hfirst & _).
  exists p. simpl. split_and!; [|done|].
  - rewrite (main_unfold _ _ _ _ m ds) by done. rewrite Hempty. simpl.
    unfold bindM, retM, on_fs_, on_fs. simpl. by rewrite Hsave.
  - assert (files (with_dir (rs_fs s) (path_save_dir args))
            = files (rs_fs s)) as <-.
    { unfold with_dir. by case_match. }
    apply lookup_insert_ne.
    destruct Hfirst as [_ [->|(_ & n & Hn & -> & _)]].
    + intros E. symmetry in E.
      by apply (predictions_csv_no_snapshot args 0) in E.
    + intros E. symmetry in E.
      apply (predictions_csv_no_snapshot args (S (Z.to_nat n))).
      simpl. by rewrite Z2Nat.id.
Qed.

Lemma main_empty_selection_witness :
  ∃ path_json,
    let fs0 := with_dir (rs_fs Demo.start) (path_save_dir (More.with_models
                 ["a:b:c"] [])) in
    main Demo.ext 2 (More.with_models ["a:b:c"] []) Demo.start
      = (Ok tt, {| rs_fs := Os.write fs0 path_json
                              (Json (More.with_models ["a:b:c"] []));
                   rs_processing := rs_processing Demo.start;
                   rs_flushes := rs_flushes Demo.start |})
    ∧ first_free_snapshot
        (path_save_dir (More.with_models ["a:b:c"] [])) fs0 path_json
    ∧ files (Os.write fs0 path_json (Json (More.with_models ["a:b:c"] [])))
        !! predictions_csv (More.with_models ["a:b:c"] [])
      = files (rs_fs Demo.start)
          !! predictions_csv (More.with_models ["a:b:c"] []).
Proof.
  apply (main_empty_selection Demo.ext 2 (More.with_models ["a:b:c"] [])
           Demo.start (PyMetricFn (λ _ _, Ok (Num 0))) Demo.ds).
  - reflexivity.
  - reflexivity.
  - reflexivity.
  - vm_compute. lia.
Defined.

Lemma current_model_fresh ext args p cache model md :
  current_model ext args p cache = Ok (model, md) →
  cache = None ∨ 1 < length (path_model_dir args) →
  parse_model p = Ok md ∧ load_model ext (md_path md) = Ok model.
Proof.
  unfold current_model. intros H Hfresh.
  assert ((model_def ← parse_model p;
           model ← load_model ext (md_path model_def);
           Ok (model, model_def)) = Ok (model, md)) as Hrun.
  { destruct cache as [c|]; [|done].
    destruct Hfresh as [?|Hlen]; [done|].
    apply Nat.ltb_lt in Hlen. by rewrite Hlen in H. }
  destruct (parse_model p) as [md'|] eqn:Hp; [|done]. simpl in Hrun.
  destruct (load_model ext (md_path md')) as [model'|] eqn:Hl; [|done].
  simpl in Hrun. by injection Hrun as -> ->.
Qed.

Lemma predict_one_Ok ext args metric_fn idx signal target p vars s v s' :
  predict_one ext args metric_fn idx signal target p vars s = (Ok v, s') →
  is_Some v.1
  ∧ ∃ model md, current_model ext args p vars.1 = Ok (model, md).
Proof.
  destruct vars as [cache e]. unfold predict_one.
  intros ([model md] & s1 & H1 & H)%bindM_Ok.
  apply liftR_Ok in H1 as [H1 _].
  split; [|by exists model, md].
  do 4 (apply bindM_Ok in H as (? & ? & _ & H)).
  unfold retM in H. injection H as <- _. by eexists.
Qed.

Lemma for_models_Ok_models ext args metric_fn idx signal target :
  ∀ ps vars s v s',
    for_models ext args metric_fn idx signal target ps vars s
      = (Ok v, s') →
    1 < length (path_model_dir args) ∨ (vars.1 = None ∧ length ps ≤ 1) →
    ∀ p, p ∈ ps →
      ∃ md model, parse_model p = Ok md
                  ∧ load_model ext (md_path md) = Ok model.
Proof.
  induction ps as [|p0 rest IH]; intros vars s v s' H Hfresh p Hp.
  { by apply elem_of_nil in Hp. }
  simpl in H. apply bindM_Ok in H as (vars1 & s1 & H1 & H).
  apply predict_one_Ok in H1 as (_ & model & md & Hcur).
  apply elem_of_cons in Hp as [->|Hp].
  - apply current_model_fresh in Hcur as [? ?]; [by exists md, model|].
    destruct Hfresh as [?|[? _]]; [by right|by left].
  - destruct Hfresh as [Hlen|[_ Hlen]].
    + eapply IH; [exact H|by left|done].
    + destruct rest; [by apply elem_of_nil in Hp|simpl in Hlen; lia].
Qed.

Lemma process_sample_Ok_models ext args metric_fn ds index_name idx s v s' :
  process_sample ext args metric_fn ds index_name idx None s = (Ok v, s') →
  ∀ p, p ∈ path_model_dir args →
    ∃ md model, parse_model p = Ok md
                ∧ load_model ext (md_path md) = Ok model.
Proof.
  unfold process_sample. intros H.
  do 4 (apply bindM_Ok in H as (? & ? & _ & H)).
  eapply for_models_Ok_models; [exact H|].
  simpl. destruct (decide (1 < length (path_model_dir args)));
    [by left|right]. split; [done|lia].
Qed.

(** A completed run got through the first lines and the loop. *)
Lemma main_Ok_loop ext fuel args s s' :
  main ext fuel args s = (Ok tt, s') →
  ∃ m ds v s1,
    str_to_object ext (metric args) = Ok m
    ∧ get_dataset ext args (rs_fs s) = Ok ds
    ∧ sample_loop ext args m ds (index_name_of ds)
        (selected_indices args ds) 1 (selected_indices args ds) (None, [])
        {| rs_fs := with_dir (rs_fs s) (path_save_dir args);
           rs_processing := rs_processing s;
           rs_flushes := rs_flushes s |} = (Ok v, s1)
    ∧ on_fs_ (save_args_as_json fuel (path_save_dir args) args) s1
      = (Ok tt, s').
Proof.
  intros H.
  destruct (str_to_object ext (metric args)) as [m|e] eqn:Hm.
  2:{ unfold main, bindM in H. by rewrite Hm in H. }
  destruct (get_dataset ext args (rs_fs s)) as [ds|e] eqn:Hds.
  2:{ unfold main, bindM in H. rewrite Hm in H. simpl in H.
      by rewrite Hds in H. }
  rewrite (main_unfold _ _ _ _ m ds) in H by done.
  apply bindM_Ok in H as (v & s1 & H1 & H).
  by exists m, ds, v, s1.
Qed.

(** X18.  A run that completes with at least one sample has parsed and
    loaded every model reference given: each holds at most one [:], and
    [load_model] succeeded on its path.  A reference that [parse_model]
    rejects therefore stops every run that has a sample to process, though
    not before the loop is entered. *)
Theorem main_model_references ext fuel args s s' ds
    (Hrun : main ext fuel args s = (Ok tt, s'))
    (Hds : get_dataset ext args (rs_fs s) = Ok ds)
    (Hsome : selected_indices args ds ≠ []) :
  ∀ p, p ∈ path_model_dir args →
    Py.count ":" p ≤ 1
    ∧ ∃ md model, parse_model p = Ok md
                  ∧ load_model ext (md_path md) = Ok model.
Proof.
  apply main_Ok_loop in Hrun as (m & ds' & v & s1 & _ & Hds' & Hloop & _).
  rewrite Hds in Hds'. injection Hds' as <-.
  destruct (selected_indices args ds) as [|idx rest] eqn:Hsel; [done|].
  simpl in Hloop.
  apply bindM_Ok in Hloop as ([] & s2 & _ & Hloop).
  apply bindM_Ok in Hloop as ([cache e] & s3 & Hsample & _).
  intros p Hp.
  destruct (process_sample_Ok_models _ _ _ _ _ _ _ _ _ Hsample p Hp)
    as (md & model & Hparse & Hload).
  split; [|by exists md, model].
  destruct (decide (Py.count ":" p ≤ 1)) as [|Hmany]; [done|].
  rewrite parse_model_many_seps in Hparse by lia. done.
Qed.

Lemma main_model_references_witness :
  ∀ p, p ∈ path_model_dir Demo.args →
    Py.count ":" p ≤ 1
    ∧ ∃ md model, parse_model p = Ok md
                  ∧ load_model Demo.ext (md_path md) = Ok model.
Proof.
  apply (main_model_references Demo.ext 1 Demo.args Demo.start
           (main Demo.ext 1 Demo.args Demo.start).2 Demo.ds).
  - vm_compute. reflexivity.
  - reflexivity.
  - by vm_compute.
Defined.

(** ** More on [main]: what a run touches *)

Lemma fs_confined_refl args fs : fs_confined args fs fs.
Proof. split_and!; try done. intros d ?. by left. Qed.

Lemma fs_confined_trans args fs1 fs2 fs3 :
  fs_confined args fs1 fs2 → fs_confined args fs2 fs3 →
  fs_confined args fs1 fs3.
Proof.
  intros (Hc & Hd & Hf & Ho & Hn) (Hc' & Hd' & Hf' & Ho' & Hn').
  split_and!.
  - by rewrite Hc'.
  - by etrans.
  - by etrans.
  - intros p Hp. by rewrite Ho', Ho.
  - intros d [?|?]%Hn'; [|by right]. by apply Hn.
Qed.

Lemma confined_ret args {A} (a : A) : confined args (retM a).
Proof. intros s. apply fs_confined_refl. Qed.

Lemma confined_raise args {A} e : confined args (@raiseM A e).
Proof. intros s. apply fs_confined_refl. Qed.

Lemma confined_liftR args {A} (r : result A) : confined args (liftR r).
Proof. destruct r; intros s; apply fs_confined_refl. Qed.

Lemma confined_log_processing args idx count :
  confined args (log_processing idx count).
Proof. intros s. apply fs_confined_refl. Qed.

Lemma confined_log_flush args count entries :
  confined args (log_flush count entries).
Proof. intros s. apply fs_confined_refl. Qed.

Lemma confined_bind args {A B} (m : M A) (k : A → M B) :
  confined args m → (∀ a, confined args (k a)) → confined args (bindM m k).
Proof.
  intros Hm Hk s. unfold bindM. specialize (Hm s).
  destruct (m s) as [[a|e] s1]; simpl in *; [|done].
  eapply fs_confined_trans; [exact Hm|apply Hk].
Qed.

Lemma confined_on_fs args {A} (f : FS → result (FS * A)) :
  (∀ fs fs' a, f fs = Ok (fs', a) → fs_confined args fs fs') →
  confined args (on_fs f).
Proof.
  intros Hf s. unfold on_fs.
  destruct (f (rs_fs s)) as [[fs a]|e] eqn:E; simpl;
    [|apply fs_confined_refl].
  by eapply Hf.
Qed.

Lemma confined_on_fs_ args (f : FS → result FS) :
  (∀ fs fs', f fs = Ok fs' → fs_confined args fs fs') →
  confined args (on_fs_ f).
Proof.
  intros Hf. apply confined_on_fs. intros fs fs' [] H.
  destruct (f fs) as [fs1|] eqn:E; [|done]. simpl in H.
  injection H as <-. by apply Hf.
Qed.

(** The helpers on the file system. *)
Lemma write_confined args fs p c :
  output_file args p → fs_confined args fs (Os.write fs p c).
Proof.
  intros Hp. split_and!; simpl; try done.
  - rewrite dom_insert_L. by apply union_subseteq_r.
  - intros q Hq. apply lookup_insert_ne. by intros ->.
  - intros d ?. by left.
Qed.

Lemma with_dir_confined args fs d :
  d = path_save_dir args ∨ d = Path.join (path_save_dir args) "tifs" →
  fs_confined args fs (with_dir fs d).
Proof.
  intros Hd. unfold with_dir. case_match; [apply fs_confined_refl|].
  split_and!; simpl; try done.
  - intros x ?. by apply elem_of_union_l, elem_of_union_l.
  - intros x [[?|Hx]%elem_of_union|Hx]%elem_of_union; [by left|right..].
    + apply elem_of_list_to_set in Hx. unfold output_dir.
      destruct Hd as [->| ->]; tauto.
    + apply elem_of_singleton in Hx as ->. unfold output_dir.
      destruct Hd as [->| ->]; tauto.
Qed.

Lemma save_tif_confined args fname ar fs fs' rel :
  Path.startswith_sep fname = false →
  save_tif fname ar (path_save_dir args) fs = Ok (fs', rel) →
  fs_confined args fs fs'.
Proof.
  intros Hname Hrun.
  destruct (save_tif_Ok fname ar (path_save_dir args) fs)
    as (rel' & _ & Hsave).
  rewrite Hsave in Hrun. injection Hrun as <- _.
  eapply fs_confined_trans; [apply (with_dir_confined args); by right|].
  apply write_confined. right. right. by exists fname.
Qed.

Lemma save_csv_confined args df fs fs' :
  save_csv (predictions_csv args) df fs = Ok fs' → fs_confined args fs fs'.
Proof.
  intros [(_ & _ & ->)|(old & _ & ->)]%save_csv_Ok_inv;
    apply write_confined; by left.
Qed.

Lemma makedirs_confined args fs fs' :
  Os.makedirs fs (path_save_dir args) = Ok fs' → fs_confined args fs fs'.
Proof.
  intros H. unfold Os.makedirs in H.
  pose proof (with_dir_confined args fs (path_save_dir args)) as Hc.
  unfold with_dir in Hc.
  destruct (Os.exists_ fs (path_save_dir args)); [done|].
  injection H as <-. apply Hc. by left.
Qed.

Lemma free_json_path_step fuel fs dir k :
  Os.exists_ fs (snapshot_name dir k) = true →
  free_json_path (S fuel) fs dir (snapshot_name dir k)
    = free_json_path fuel fs dir (snapshot_name dir (S k)).
Proof.
  intros H. destruct k as [|j].
  - by apply free_json_path_default.
  - cbn [snapshot_name] in *.
    rewrite free_json_path_numbered by (done || lia).
    by rewrite Nat2Z.inj_succ.
Qed.

Lemma free_json_path_name fs dir fuel :
  ∀ k p, free_json_path fuel fs dir (snapshot_name dir k) = Ok p →
         ∃ k', p = snapshot_name dir k'.
Proof.
  induction fuel as [|fuel IH]; intros k p H.
  - simpl in H. destruct (Os.exists_ fs (snapshot_name dir k)); [done|].
    injection H as <-. by exists k.
  - destruct (Os.exists_ fs (snapshot_name dir k)) eqn:E.
    + rewrite free_json_path_step in H by done. by eapply IH.
    + rewrite free_json_path_free in H by done.
      injection H as <-. by exists k.
Qed.

Lemma save_args_as_json_confined args fuel fs fs' :
  save_args_as_json fuel (path_save_dir args) args fs = Ok fs' →
  fs_confined args fs fs'.
Proof.
  unfold save_args_as_json. intros H.
  destruct (free_json_path _ _ _ _) as [p|] eqn:E; [|done].
  simpl in H. injection H as <-.
  apply (free_json_path_name _ _ _ 0) in E as [k ->].
  apply write_confined. right. left. by exists k.
Qed.

(** The names of the image files never start with a separator: they start
    with the digits, or the sign, of the index. *)
Lemma str_ne_nil n : Py.str n ≠ "".
Proof.
  unfold Py.str. destruct n as [|p|p]; simpl; [done|..].
  - pose proof (Unsigned.to_uint_nonnil p) as H.
    by destruct (Pos.to_uint p).
  - done.
Qed.

Lemma startswith_sep_str n x : Path.startswith_sep (Py.str n +:+ x) = false.
Proof.
  rewrite startswith_sep_app by apply str_ne_nil.
  unfold Py.str. destruct n as [|p|p]; simpl; [done|..].
  - pose proof (Unsigned.to_uint_nonnil p) as H.
    by destruct (Pos.to_uint p).
  - done.
Qed.

Lemma confined_save_channels args idx name planes :
  ∀ idx_c e, confined args (save_channels args idx name idx_c planes e).
Proof.
  induction planes as [|ar rest IH]; intros idx_c e; simpl.
  - apply confined_ret.
  - apply confined_bind; [|intros p; apply IH].
    apply confined_on_fs. intros fs fs' rel.
    apply save_tif_confined, startswith_sep_str.
Qed.

Lemma confined_predict_one ext args metric_fn idx signal target p vars :
  confined args (predict_one ext args metric_fn idx signal target p vars).
Proof.
  destruct vars as [cache e]. unfold predict_one.
  apply confined_bind; [apply confined_liftR|]. intros [model model_def].
  do 3 (apply confined_bind; [apply confined_liftR|]; intros ?).
  apply confined_bind; [|intros ?; apply confined_ret].
  destruct a0; [destruct (negb _)|]; try apply confined_ret.
  apply confined_save_channels.
Qed.

Lemma confined_for_models ext args metric_fn idx signal target ps :
  ∀ vars,
    confined args (for_models ext args metric_fn idx signal target ps vars).
Proof.
  induction ps as [|p rest IH]; intros vars; simpl.
  - apply confined_ret.
  - apply confined_bind; [apply confined_predict_one|]. intros v. apply IH.
Qed.

Ltac confined_step :=
  first [ apply confined_ret | apply confined_raise | apply confined_liftR
        | apply confined_log_processing | apply confined_log_flush
        | apply confined_on_fs; intros ? ? ?;
          apply save_tif_confined, startswith_sep_str
        | apply confined_bind; [|intros ?] ].

Lemma confined_process_sample ext args metric_fn ds index_name idx cache :
  confined args
    (process_sample ext args metric_fn ds index_name idx cache).
Proof.
  unfold process_sample.
  do 2 (apply confined_bind; [apply confined_liftR|]; intros ?).
  apply confined_bind; [|intros ?].
  { destruct (negb _); repeat confined_step. }
  apply confined_bind; [|intros ?].
  { match goal with
    | |- confined _ (match ?t with _ => _ end) => destruct t
    end; [destruct (negb _)|]; repeat confined_step. }
  apply confined_for_models.
Qed.

Lemma confined_flush args index_name count entries :
  confined args (flush args index_name count entries).
Proof.
  unfold flush. repeat confined_step.
  apply confined_on_fs_. intros fs fs'. apply save_csv_confined.
Qed.

Lemma confined_sample_loop ext args metric_fn ds index_name indices todo :
  ∀ count vars,
    confined args
      (sample_loop ext args metric_fn ds index_name indices count todo vars).
Proof.
  induction todo as [|idx rest IH]; intros count [cache entries]; simpl.
  - apply confined_ret.
  - apply confined_bind; [apply confined_log_processing|]. intros _.
    apply confined_bind; [apply confined_process_sample|]. intros [c e].
    apply confined_bind; [|intros _; apply IH].
    destruct (flush_due _ _ _); [apply confined_flush|apply confined_ret].
Qed.

Lemma confined_main ext fuel args : confined args (main ext fuel args).
Proof.
  unfold main.
  apply confined_bind; [apply confined_liftR|]. intros m.
  apply confined_bind; [intros s; apply fs_confined_refl|]. intros fs.
  apply confined_bind; [apply confined_liftR|]. intros ds.
  apply confined_bind; [|intros _].
  { destruct (negb _); [|apply confined_ret].
    apply confined_on_fs_. intros fs1 fs2. apply makedirs_confined. }
  apply confined_bind; [apply confined_sample_loop|]. intros _.
  apply confined_on_fs_. intros fs1 fs2. apply save_args_as_json_confined.
Qed.

(** X19.  Whatever the arguments, and whether it completes or raises, a run
    changes files at three kinds of paths only: the result table, the
    snapshots of the output directory, and paths that join a relative name
    to its subdirectory [tifs].  It makes no directory beyond the output
    directory, [tifs] and their ancestors; it removes no file and no
    directory, and it keeps the working directory. *)
Theorem main_touches_only_output ext fuel args s :
  let fs := rs_fs s in
  let fs' := rs_fs (main ext fuel args s).2 in
  cwd fs' = cwd fs
  ∧ dirs fs ⊆ dirs fs'
  ∧ dom (files fs) ⊆ dom (files fs')
  ∧ (∀ p, ¬ output_file args p → files fs' !! p = files fs !! p)
  ∧ (∀ d, d ∈ dirs fs' → d ∈ dirs fs ∨ output_dir args d).
Proof. apply confined_main. Qed.

(** ** More on [main]: runs that raise *)

Lemma bindM_inv {A B} (m : M A) (k : A → M B) s r s' :
  bindM m k s = (r, s') →
  (∃ e, m s = (Err e, s') ∧ r = Err e)
  ∨ (∃ a s1, m s = (Ok a, s1) ∧ k a s1 = (r, s')).
Proof.
  unfold bindM. destruct (m s) as [[a|e] s1]; intros H.
  - right. by exists a, s1.
  - left. injection H as <- <-. by exists e.
Qed.

Lemma flush_any args index_name count entries s r s' :
  flush args index_name count entries s = (r, s') →
  rs_processing s' = rs_processing s
  ∧ (rs_flushes s' = rs_flushes s
     ∨ rs_flushes s' = rs_flushes s ++ [(count, entries)]).
Proof.
  unfold flush. intros [(e & H & _)|(df & s1 & H1 & H)]%bindM_inv.
  - destruct (keeps_logs_eq _ _ _ _ (keeps_logs_liftR _) H) as [-> ->].
    by split; [|left].
  - destruct (keeps_logs_eq _ _ _ _ (keeps_logs_liftR _) H1) as [Hp1 Hf1].
    apply bindM_inv in H as [(e & H & _)|([] & s2 & H2 & H)];
      [done|].
    unfold log_flush in H2. injection H2 as <-.
    unfold on_fs_ in H.
    destruct (keeps_logs_eq _ _ _ _ (keeps_logs_on_fs _) H) as [-> ->].
    simpl. rewrite Hp1, Hf1. by split; [|right].
Qed.

(** What the loop leaves in the two records on any outcome. *)
Lemma sample_loop_any ext args metric_fn ds index_name indices todo :
  ∀ count vars s r s',
    sample_loop ext args metric_fn ds index_name indices count todo vars s
      = (r, s') →
    ∃ k new,
      k ≤ length todo
      ∧ rs_processing s' = rs_processing s ++ zip (take k todo) (seq count k)
      ∧ rs_flushes s' = rs_flushes s ++ new
      ∧ new.*1 `prefix_of` flush_counts indices count todo
      ∧ Forall (λ cb : nat * list entry,
                  length cb.2 + count = length vars.2 + S cb.1
                  ∧ cb.1 < count + k) new
      ∧ (∀ v, r = Ok v → k = length todo).
Proof.
  induction todo as [|idx rest IH]; intros count [cache entries] s r s' H.
  - simpl in H. unfold retM in H. injection H as <- <-.
    exists 0, []. simpl. rewrite !app_nil_r.
    split_and!; try done; apply prefix_nil.
  - simpl in H. rewrite flush_counts_cons.
    apply bindM_inv in H as [(e & H & _)|([] & s1 & H1 & H)]; [done|].
    unfold log_processing in H1. injection H1 as <-.
    apply bindM_inv in H as [(e & H & ->)|([cache' e] & s2 & H2 & H)].
    { destruct (keeps_logs_eq _ _ _ _
        (keeps_logs_process_sample _ _ _ _ _ _ _) H) as [Hp Hf].
      exists 1, []. simpl in *. rewrite app_nil_r.
      split_and!; [lia|done|done|apply prefix_nil|done|done]. }
    destruct (keeps_logs_eq _ _ _ _
      (keeps_logs_process_sample _ _ _ _ _ _ _) H2) as [Hp2 Hf2].
    simpl in Hp2, Hf2.
    apply bindM_inv in H as [(e0 & H & ->)|([] & s3 & H3 & H)].
    { destruct (flush_due indices count idx) eqn:Hdue; [|done].
      apply flush_any in H as [Hp [Hf|Hf]].
      - exists 1, []. simpl. rewrite app_nil_r.
        split_and!; [lia|by rewrite Hp, Hp2|by rewrite Hf, Hf2
                    |apply prefix_nil|done|done].
      - exists 1, [(count, entries ++ [e])]. simpl.
        split_and!; [lia|by rewrite Hp, Hp2|by rewrite Hf, Hf2| | |done].
        + apply prefix_cons, prefix_nil.
        + constructor; [|done]. simpl. rewrite length_app. simpl. lia. }
    apply IH in H as (k & new & Hk & Hp & Hf & Hc & Hb & Hall).
    assert (rs_processing s3 = rs_processing s ++ [(idx, count)]
            ∧ ∃ mid, rs_flushes s3 = rs_flushes s ++ mid
                ∧ mid = (if flush_due indices count idx
                         then [(count, entries ++ [e])] else []))
      as (Hp3 & mid & Hf3 & Hmid).
    { destruct (flush_due indices count idx) eqn:Hdue.
      - apply flush_Ok in H3 as [Hp3 Hf3].
        split; [by rewrite Hp3, Hp2|].
        eexists. split; [|done]. by rewrite Hf3, Hf2.
      - unfold retM in H3. injection H3 as <-.
        split; [done|]. exists []. by rewrite app_nil_r. }
    exists (S k), (mid ++ new). split_and!.
    + simpl. lia.
    + rewrite Hp, Hp3, <- app_assoc. done.
    + rewrite Hf, Hf3, <- app_assoc. done.
    + rewrite fmap_app, Hmid.
      destruct (flush_due indices count idx); simpl.
      * by apply prefix_cons.
      * done.
    + apply Forall_app. split.
      * rewrite Hmid. destruct (flush_due indices count idx);
          [|constructor].
        constructor; [|done]. simpl. rewrite length_app. simpl. lia.
      * eapply Forall_impl; [exact Hb|]. intros [c b] [Hl Hlt].
        simpl in *. rewrite length_app in Hl. simpl in Hl. lia.
    + intros v Hv. simpl. f_equal. by eapply Hall.
Qed.

(** X20.  Whether a run completes or raises, once the dataset is found the
    samples announced are the first [k] of the selection, in order and
    numbered from 1, for some [k]; the calls of [save_csv] made are the
    first calls of the full run, each with one row for each sample up to
    its count, and none for a sample not yet announced.  A run that
    completes has announced the whole selection. *)
Theorem main_progress ext fuel args s ds
    (Hds : get_dataset ext args (rs_fs s) = Ok ds) :
  let indices := selected_indices args ds in
  let run := main ext fuel args s in
  ∃ k new,
    k ≤ length indices
    ∧ rs_processing run.2
        = rs_processing s ++ zip (take k indices) (seq 1 k)
    ∧ rs_flushes run.2 = rs_flushes s ++ new
    ∧ new.*1 `prefix_of`
        filter (λ c, c mod 8 = 0 ∨ indices !! (c - 1) = last indices)
               (seq 1 (length indices))
    ∧ Forall (λ cb : nat * list entry, length cb.2 = cb.1 ∧ cb.1 ≤ k) new
    ∧ (run.1 = Ok tt → k = length indices).
Proof.
  intros indices run.
  assert (∃ k new,
    k ≤ length indices
    ∧ rs_processing run.2
        = rs_processing s ++ zip (take k indices) (seq 1 k)
    ∧ rs_flushes run.2 = rs_flushes s ++ new
    ∧ new.*1 `prefix_of` flush_counts indices 1 indices
    ∧ Forall (λ cb : nat * list entry, length cb.2 = cb.1 ∧ cb.1 ≤ k) new
    ∧ (run.1 = Ok tt → k = length indices)) as H.
  2:{ destruct H as (k & new & H1 & H2 & H3 & H4 & H5 & H6).
      exists k, new. split_and!; try done.
      pose proof (flush_counts_filter [] indices) as Hfilter.
      cbn [app length] in Hfilter. by rewrite <- Hfilter. }
  unfold run.
  destruct (str_to_object ext (metric args)) as [m|e] eqn:Hm.
  2:{ exists 0, []. unfold main, bindM. rewrite Hm. simpl.
      rewrite !app_nil_r. split_and!; [lia|done|done|apply prefix_nil|done|done]. }
  rewrite (main_unfold _ _ _ _ m ds) by done. fold indices.
  destruct (bindM _ _ _) as [r s'] eqn:Hrun. simpl.
  apply bindM_inv in Hrun as [(e & H & ->)|(v & s1 & H1 & H)].
  - apply sample_loop_any in H as (k & new & Hk & Hp & Hf & Hc & Hb & _).
    exists k, new. simpl in *. split_and!; try done.
    eapply Forall_impl; [exact Hb|]. intros [c b] [? ?]. simpl in *. lia.
  - apply sample_loop_any in H1 as (k & new & Hk & Hp & Hf & Hc & Hb & Hall).
    specialize (Hall v eq_refl). subst k.
    unfold on_fs_ in H.
    destruct (keeps_logs_eq _ _ _ _ (keeps_logs_on_fs _) H) as [-> ->].
    exists (length indices), new. simpl in *. split_and!; try done.
    eapply Forall_impl; [exact Hb|]. intros [c b] [? ?]. simpl in *. lia.
Qed.

Lemma main_progress_witness :
  let args := More.with_models ["a:b:c"] [5; 1]%Z in
  let indices := selected_indices args Demo.ds in
  let run := main Demo.ext 2 args Demo.start in
  ∃ k new,
    k ≤ length indices
    ∧ rs_processing run.2
        = rs_processing Demo.start ++ zip (take k indices) (seq 1 k)
    ∧ rs_flushes run.2 = rs_flushes Demo.start ++ new
    ∧ new.*1 `prefix_of`
        filter (λ c, c mod 8 = 0 ∨ indices !! (c - 1) = last indices)
               (seq 1 (length indices))
    ∧ Forall (λ cb : nat * list entry, length cb.2 = cb.1 ∧ cb.1 ≤ k) new
    ∧ (run.1 = Ok tt → k = length indices).
Proof.
  intros args.
  apply (main_progress Demo.ext 2 args Demo.start Demo.ds).
  reflexivity.
Defined.

(** ** More on [main]: the result table of a completed run *)

Lemma dict_get_set d k v k' :
  dict_get (dict_set d k v) k'
    = if decide (k = k') then Some v else dict_get d k'.
Proof.
  induction d as [|[k0 v0] d IH]; simpl.
  - destruct (decide (k = k')); done.
  - destruct (decide (k0 = k)) as [->|Hne]; simpl.
    + destruct (decide (k = k')); done.
    + destruct (decide (k0 = k')) as [->|]; [|done].
      by rewrite decide_False by done.
Qed.

Lemma dict_get_set_ne d k v k' :
  k ≠ k' → dict_get (dict_set d k v) k' = dict_get d k'.
Proof. intros H. by rewrite dict_get_set, decide_False. Qed.

Lemma count_dot_app a b : Py.count "." (a +:+ "." +:+ b) ≠ 0.
Proof.
  rewrite count_app. change ("." +:+ b) with (String "." b). simpl. lia.
Qed.

Lemma save_channels_Ok_label args idx name index_name planes :
  Py.count "." index_name = 0 →
  ∀ idx_c e s e' s',
    save_channels args idx name idx_c planes e s = (Ok e', s') →
    dict_get e' index_name = dict_get e index_name.
Proof.
  intros Hdot. induction planes as [|ar rest IH]; intros idx_c e s e' s' H.
  - simpl in H. unfold retM in H. by injection H as <- _.
  - simpl in H. apply bindM_Ok in H as (p & s1 & _ & H).
    apply IH in H. rewrite H. apply dict_get_set_ne.
    intros E. rewrite <- E in Hdot.
    rewrite count_app in Hdot.
    pose proof (count_dot_app ("prediction_c" +:+ Py.str (Z.of_nat idx_c))
                  name) as Hc.
    rewrite string_app_assoc in Hc. lia.
Qed.

Lemma predict_one_Ok_label ext args metric_fn idx signal target p
    index_name vars s v s' :
  Py.count "." index_name = 0 →
  predict_one ext args metric_fn idx signal target p vars s = (Ok v, s') →
  dict_get v.2 index_name = dict_get vars.2 index_name.
Proof.
  intros Hdot. destruct vars as [cache e]. unfold predict_one.
  intros ([model md] & s1 & _ & H)%bindM_Ok.
  apply bindM_Ok in H as (pred0 & ? & _ & H).
  apply bindM_Ok in H as (pred & ? & _ & H).
  apply bindM_Ok in H as (ev & ? & _ & H).
  apply bindM_Ok in H as (e1 & s2 & He & H).
  unfold retM in H. injection H as <- _. simpl.
  assert (dict_get e1 index_name
          = dict_get (dict_set e (metric args +:+ "." +:+ md_name md) ev)
              index_name) as ->.
  { destruct pred as [t|]; [destruct (negb (no_prediction args))|].
    - by eapply save_channels_Ok_label.
    - unfold retM in He. by injection He as <- _.
    - unfold retM in He. by injection He as <- _. }
  apply dict_get_set_ne. intros E. rewrite <- E in Hdot.
  by apply count_dot_app in Hdot.
Qed.

Lemma for_models_Ok_label ext args metric_fn idx signal target index_name :
  Py.count "." index_name = 0 →
  ∀ ps vars s v s',
    for_models ext args metric_fn idx signal target ps vars s
      = (Ok v, s') →
    dict_get v.2 index_name = dict_get vars.2 index_name.
Proof.
  intros Hdot. induction ps as [|p rest IH]; intros vars s v s' H.
  - simpl in H. unfold retM in H. by injection H as <- _.
  - simpl in H. apply bindM_Ok in H as (vars1 & s1 & H1 & H).
    apply IH in H. rewrite H. by eapply predict_one_Ok_label.
Qed.

(** The row of a sample holds its index under the name of the index
    column. *)
Lemma process_sample_Ok_label ext args metric_fn ds index_name idx cache
    s v s' :
  plain_index_name index_name →
  process_sample ext args metric_fn ds index_name idx cache s
    = (Ok v, s') →
  dict_get v.2 index_name = Some (Num idx).
Proof.
  intros (Hdot & Hsig & Htar). unfold process_sample. intros H.
  do 2 (apply bindM_Ok in H as (? & ? & _ & H)).
  apply bindM_Ok in H as (e1 & s1 & H1 & H).
  apply bindM_Ok in H as (e2 & s2 & H2 & H).
  apply (for_models_Ok_label _ _ _ _ _ _ index_name Hdot) in H.
  rewrite H. cbn [fst snd].
  assert (dict_get (dict_set [] index_name (Num idx)) index_name
          = Some (Num idx)) as He0.
  { by rewrite dict_get_set, decide_True. }
  assert (dict_get e1 index_name = Some (Num idx)) as He1.
  { destruct (negb (no_signal args)).
    - apply bindM_Ok in H1 as (plane & ? & _ & H1).
      apply bindM_Ok in H1 as (p & ? & _ & H1).
      unfold retM in H1. injection H1 as <- _.
      destruct (decide (index_name = "path_signal")); [done|].
      simpl. by rewrite decide_True.
    - unfold retM in H1. by injection H1 as <- _. }
  rewrite <- He1.
  match type of H2 with
  | (match ?t with _ => _ end) _ = _ => destruct t as [tg|]
  end; [destruct (negb (no_target args))|].
  - apply bindM_Ok in H2 as (plane & ? & _ & H2).
    apply bindM_Ok in H2 as (p & ? & _ & H2).
    unfold retM in H2. injection H2 as <- _.
    by rewrite dict_get_set_ne.
  - unfold retM in H2. by injection H2 as <- _.
  - unfold retM in H2. by injection H2 as <- _.
Qed.

(** The row labels of the frame made from the rows. *)
Lemma frame_of_entries_labels index_name entries df :
  frame_of_entries index_name entries = Ok df →
  labels_of index_name entries = (λ i, Some (Num i)) <$> index df.
Proof.
  unfold frame_of_entries, labels_of.
  destruct (foldr _ _ entries) as [labels|] eqn:E; [|done].
  simpl. intros [= <-]. simpl.
  revert labels E. induction entries as [|e rest IH]; intros labels E.
  - simpl in E. by injection E as <-.
  - simpl in E.
    destruct (dict_get e index_name) as [[i|?]|] eqn:Hget; try done.
    destruct (foldr _ _ rest) as [l|] eqn:E'; [|done].
    simpl in E. injection E as <-. simpl. rewrite Hget. f_equal.
    by apply IH.
Qed.

Lemma labels_inj (l1 l2 : list Z) :
  (λ i, Some (Num i)) <$> l1 = (λ i, Some (Num i)) <$> l2 → l1 = l2.
Proof.
  revert l2. induction l1 as [|x l1 IH]; intros [|y l2] H; try done.
  simpl in H. injection H as -> H. f_equal. by apply IH.
Qed.

Lemma flush_Ok_fs args index_name count entries s u s' :
  flush args index_name count entries s = (Ok u, s') →
  ∃ df, frame_of_entries index_name entries = Ok df
        ∧ save_csv (predictions_csv args) df (rs_fs s) = Ok (rs_fs s').
Proof.
  unfold flush. intros (df & s1 & H1 & H)%bindM_Ok.
  apply bindM_Ok in H as ([] & s2 & H2 & H3).
  apply liftR_Ok in H1 as [Hdf ->].
  unfold log_flush in H2. injection H2 as <-.
  exists df. split; [done|].
  unfold on_fs_, on_fs in H3. simpl in H3. fold (predictions_csv args) in H3.
  destruct (save_csv (predictions_csv args) df (rs_fs s)) as [fs1|]; [|done].
  simpl in H3. by injection H3 as _ <-.
Qed.

(** After a completed loop over at least one sample the result table holds
    a row for every index of the run. *)
Lemma sample_loop_Ok_table ext args metric_fn ds index_name indices :
  plain_index_name index_name →
  ∀ todo seen count vars s v s',
    indices = seen ++ todo → todo ≠ [] →
    labels_of index_name vars.2 = (λ i, Some (Num i)) <$> seen →
    sample_loop ext args metric_fn ds index_name indices count todo vars s
      = (Ok v, s') →
    ∃ t, files (rs_fs s') !! predictions_csv args = Some (Csv t)
         ∧ Sorted String.le (columns t)
         ∧ ∀ i, i ∈ indices → i ∈ index t.
Proof.
  intros Hname.
  induction todo as [|idx rest IH];
    intros seen count [cache entries] s v s' Hind Hne Hlab H; [done|].
  simpl in H.
  apply bindM_Ok in H as ([] & s1 & _ & H).
  apply bindM_Ok in H as ([cache' e] & s2 & H2 & H).
  apply bindM_Ok in H as ([] & s3 & H3 & H).
  apply process_sample_Ok_label in H2; [|done]. simpl in H2.
  assert (labels_of index_name (entries ++ [e])
          = (λ i, Some (Num i)) <$> (seen ++ [idx])) as Hlab'.
  { unfold labels_of in *. rewrite !fmap_app. simpl in *.
    by rewrite Hlab, H2. }
  destruct rest as [|idx' rest'].
  - simpl in H. unfold retM in H. injection H as _ <-.
    assert (flush_due indices count idx = true) as Hdue.
    { unfold flush_due. rewrite Hind, last_snoc.
      rewrite bool_decide_eq_true_2 by done. apply orb_true_r. }
    rewrite Hdue in H3.
    apply flush_Ok_fs in H3 as (df & Hdf & Hsave).
    apply frame_of_entries_labels in Hdf. rewrite Hlab' in Hdf.
    apply labels_inj in Hdf.
    apply save_csv_Ok_inv in Hsave as [(_ & _ & ->)|(old & _ & ->)];
      eexists; (split; [simpl; by rewrite lookup_insert_eq|]);
      (split; [simpl; apply Sorted_merge_sort, _|]);
      intros i Hi; simpl.
    + by rewrite <- Hdf, <- Hind.
    + apply elem_of_pd_union; [apply _..|]. left.
      by rewrite <- Hdf, <- Hind.
  - eapply (IH (seen ++ [idx])); [|done| |exact H].
    + by rewrite <- app_assoc.
    + done.
Qed.

Lemma fs_confined_exists args fs fs' p :
  fs_confined args fs fs' →
  Os.exists_ fs p = true → Os.exists_ fs' p = true.
Proof.
  intros (_ & Hd & Hf & _). rewrite !exists_iff. unfold paths.
  rewrite !elem_of_union. intros [?|?]; [left|right]; auto.
Qed.

(** X21.  After a completed run over at least one sample, with an index
    column whose name no other key of a row can take (the default [index]
    is one), the output directory exists and holds the result table; the
    columns of the table are in order, and it has a row for every index of
    the run. *)
Theorem main_table_rows ext fuel args s s' ds
    (Hrun : main ext fuel args s = (Ok tt, s'))
    (Hds : get_dataset ext args (rs_fs s) = Ok ds)
    (Hname : plain_index_name (index_name_of ds))
    (Hsome : selected_indices args ds ≠ []) :
  Os.exists_ (rs_fs s') (path_save_dir args) = true
  ∧ ∃ t, files (rs_fs s') !! predictions_csv args = Some (Csv t)
         ∧ Sorted String.le (columns t)
         ∧ ∀ i, i ∈ selected_indices args ds → i ∈ index t.
Proof.
  apply main_Ok_loop in Hrun as (m & ds' & v & s1 & _ & Hds' & Hloop & Hsnap).
  rewrite Hds in Hds'. injection Hds' as <-.
  assert (fs_confined args (rs_fs s1) (rs_fs s')
          ∧ files (rs_fs s') !! predictions_csv args
            = files (rs_fs s1) !! predictions_csv args) as [Hconf Hsame].
  { unfold on_fs_, on_fs in Hsnap.
    destruct (save_args_as_json fuel (path_save_dir args) args (rs_fs s1))
      as [fs2|] eqn:Hsave; [|done].
    simpl in Hsnap. injection Hsnap as <-. simpl.
    split; [by eapply save_args_as_json_confined|].
    unfold save_args_as_json in Hsave.
    destruct (free_json_path _ _ _ _) as [p|] eqn:E; [|done].
    simpl in Hsave. injection Hsave as <-.
    apply (free_json_path_name _ _ _ 0) in E as [k ->].
    simpl. apply lookup_insert_ne. intros E. symmetry in E.
    by apply predictions_csv_no_snapshot in E. }
  split.
  - eapply fs_confined_exists; [exact Hconf|].
    pose proof (confined_sample_loop ext args m ds (index_name_of ds)
                  (selected_indices args ds) (selected_indices args ds)
                  1 (None, [])
                  {| rs_fs := with_dir (rs_fs s) (path_save_dir args);
                     rs_processing := rs_processing s;
                     rs_flushes := rs_flushes s |}) as Hc.
    rewrite Hloop in Hc. simpl in Hc.
    eapply fs_confined_exists; [exact Hc|]. apply exists_with_dir.
  - rewrite Hsame.
    exact (sample_loop_Ok_table ext args m ds (index_name_of ds)
             (selected_indices args ds) Hname (selected_indices args ds) []
             1 (None, []) _ v s1 eq_refl Hsome eq_refl Hloop).
Qed.

Lemma main_table_rows_witness :
  let s' := (main Demo.ext 1 Demo.args Demo.start).2 in
  Os.exists_ (rs_fs s') (path_save_dir Demo.args) = true
  ∧ ∃ t, files (rs_fs s') !! predictions_csv Demo.args = Some (Csv t)
         ∧ Sorted String.le (columns t)
         ∧ ∀ i, i ∈ selected_indices Demo.args Demo.ds → i ∈ index t.
Proof.
  intros s'.
  apply (main_table_rows Demo.ext 1 Demo.args Demo.start s' Demo.ds).
  - vm_compute. reflexivity.
  - reflexivity.
  - split; [reflexivity|]. split; by vm_compute.
  - by vm_compute.
Defined.

(** ** More on [main]: the images of a completed run *)

Lemma fs_confined_is_Some args fs fs' p :
  fs_confined args fs fs' →
  is_Some (files fs !! p) → is_Some (files fs' !! p).
Proof.
  intros (_ & _ & Hf & _) H%elem_of_dom. apply elem_of_dom. by apply Hf.
Qed.

Lemma confined_eq args {A} (m : M A) s r s' :
  confined args m → m s = (r, s') → fs_confined args (rs_fs s) (rs_fs s').
Proof. intros H E. specialize (H s). by rewrite E in H. Qed.

(** Lines 186–189: the image of the target, when there is one to save. *)
Lemma confined_target_branch args idx (target : option Tensor) e :
  confined args
    (match target with
     | Some t =>
         if negb (no_target args) then
           do plane <- liftR (first_plane t);
           do p <- on_fs (save_tif (Py.str idx +:+ "_target.tif") plane
                                   (path_save_dir args));
           retM (dict_set e "path_target" (Str p))
         else retM e
     | None => retM e
     end).
Proof.
  destruct target; [destruct (negb _)|]; repeat confined_step.
Qed.

Lemma process_sample_Ok_signal ext args metric_fn ds index_name idx cache
    s v s' :
  no_signal args = false →
  process_sample ext args metric_fn ds index_name idx cache s
    = (Ok v, s') →
  is_Some (files (rs_fs s')
             !! Path.join (Path.join (path_save_dir args) "tifs")
                  (Py.str idx +:+ "_signal.tif")).
Proof.
  intros Hsig. unfold process_sample. rewrite Hsig. intros H.
  do 2 (apply bindM_Ok in H as (? & ? & _ & H)).
  apply bindM_Ok in H as (e1 & s1 & H1 & H).
  apply bindM_Ok in H as (e2 & s2 & H2 & H).
  apply (confined_eq args) in H; [|apply confined_for_models].
  apply (confined_eq args) in H2; [|apply confined_target_branch].
  apply (fs_confined_is_Some _ _ _ _ H), (fs_confined_is_Some _ _ _ _ H2).
  simpl in H1.
  apply bindM_Ok in H1 as (plane & s3 & _ & H1).
  apply bindM_Ok in H1 as (p & s4 & Hsave & H1).
  unfold retM in H1. injection H1 as _ <-.
  unfold on_fs in Hsave.
  destruct (save_tif_Ok (Py.str idx +:+ "_signal.tif") plane
              (path_save_dir args) (rs_fs s3)) as (rel & _ & Htif).
  rewrite Htif in Hsave. injection Hsave as _ <-. simpl.
  rewrite lookup_insert_eq. by eexists.
Qed.

Lemma sample_loop_Ok_signal ext args metric_fn ds index_name indices :
  no_signal args = false →
  ∀ todo count vars s v s',
    sample_loop ext args metric_fn ds index_name indices count todo vars s
      = (Ok v, s') →
    ∀ i, i ∈ todo →
      is_Some (files (rs_fs s')
                 !! Path.join (Path.join (path_save_dir args) "tifs")
                      (Py.str i +:+ "_signal.tif")).
Proof.
  intros Hsig. induction todo as [|idx rest IH];
    intros count [cache entries] s v s' H i Hi.
  { by apply elem_of_nil in Hi. }
  simpl in H.
  apply bindM_Ok in H as ([] & s1 & _ & H).
  apply bindM_Ok in H as ([cache' e] & s2 & H2 & H).
  apply bindM_Ok in H as ([] & s3 & H3 & H).
  apply elem_of_cons in Hi as [->|Hi]; [|by eapply IH].
  apply process_sample_Ok_signal in H2; [|done].
  apply (confined_eq args) in H; [|apply confined_sample_loop].
  apply (fs_confined_is_Some _ _ _ _ H).
  assert (fs_confined args (rs_fs s2) (rs_fs s3)) as Hc.
  { destruct (flush_due indices count idx).
    - eapply confined_eq; [apply confined_flush|exact H3].
    - unfold retM in H3. injection H3 as <-. apply fs_confined_refl. }
  by apply (fs_confined_is_Some _ _ _ _ Hc).
Qed.

(** X22.  Unless [no_signal] is set, a completed run leaves an image of
    the signal for every sample: a file named by the index followed by
    [_signal.tif], in the subdirectory [tifs] of the output directory. *)
Theorem main_signal_images ext fuel args s s' ds
    (Hrun : main ext fuel args s = (Ok tt, s'))
    (Hds : get_dataset ext args (rs_fs s) = Ok ds)
    (Hsig : no_signal args = false) :
  ∀ i, i ∈ selected_indices args ds →
    is_Some (files (rs_fs s')
               !! Path.join (Path.join (path_save_dir args) "tifs")
                    (Py.str i +:+ "_signal.tif")).
Proof.
  apply main_Ok_loop in Hrun as (m & ds' & v & s1 & _ & Hds' & Hloop & Hsnap).
  rewrite Hds in Hds'. injection Hds' as <-.
  intros i Hi.
  apply (confined_eq args) in Hsnap.
  2:{ apply confined_on_fs_. intros fs1 fs2.
      apply save_args_as_json_confined. }
  apply (fs_confined_is_Some _ _ _ _ Hsnap).
  by eapply sample_loop_Ok_signal.
Qed.

Lemma main_signal_images_witness :
  ∀ i, i ∈ selected_indices Demo.args Demo.ds →
    is_Some (files (rs_fs (main Demo.ext 1 Demo.args Demo.start).2)
               !! Path.join (Path.join (path_save_dir Demo.args) "tifs")
                    (Py.str i +:+ "_signal.tif")).
Proof.
  apply (main_signal_images Demo.ext 1 Demo.args Demo.start
           (main Demo.ext 1 Demo.args Demo.start).2 Demo.ds).
  - vm_compute. reflexivity.
  - reflexivity.
  - reflexivity.
Defined.
